(** * Snowfall: the particle simulation of [snowfall.py]

    A shallow embedding of [src/snowfall.py]: the module-level parallel
    arrays, the [state] dictionary, [cache_line], [start], [run] and
    [stop].

    Numbers.  Python integers are [Z].  Python floats are modelled by
    exact rationals [Q]: every arithmetic operation of the source is
    performed without rounding (and its result stored in lowest terms),
    comparisons are the exact ones.
    Positions that the source stores as an [int] in a float array
    (a spawn abscissa, an edge constant) are injected into [Q].

    Drawing.  [cache_line] and the two render caches [box_pts] and
    [text_pts] (written by [start], read only by the drawing pass) are
    embedded beside the world, and the drawing pass as the list of calls
    it makes on [view_manager.draw].

    Not embedded: [input_mgr.reset], [view_manager.back] and
    [gc.collect]. *)

From Stdlib Require Import ZArith QArith Qabs Qround Qpower Lia Lqa Bool.
From Stdlib Require String.
From stdpp Require Import base list.
Import String.StringSyntax.
Delimit Scope string_scope with string.

Open Scope Z_scope.

#[global] Instance Q_inhabited : Inhabited Q := populate 0%Q.

(** ** Python primitives on numbers *)

(** [int(x)] on a float: truncation toward zero. *)
Definition py_int (x : Q) : Z := Z.quot (Qnum x) (Zpos (Qden x)).

(** Float arithmetic: the exact rational result, stored in lowest terms,
    so that a number has one representation however it was computed. *)
Definition fadd (a b : Q) : Q := Qred (a + b).
Definition fsub (a b : Q) : Q := Qred (a - b).
Definition fmul (a b : Q) : Q := Qred (a * b).

Declare Scope float_scope.
Delimit Scope float_scope with F.

#[global] Arguments fadd (a b)%_F : simpl never.
#[global] Arguments fsub (a b)%_F : simpl never.
#[global] Arguments fmul (a b)%_F : simpl never.
Notation "a + b" := (fadd a b) : float_scope.
Notation "a - b" := (fsub a b) : float_scope.
Notation "a * b" := (fmul a b) : float_scope.
Notation "- a" := (Qopp a) : float_scope.

(** [a < b] on floats. *)
Definition Qltb (a b : Q) : bool := negb (Qle_bool b a).

(** [min(a, b)]: the first of the smallest arguments. *)
Definition py_min (a b : Q) : Q := if Qltb b a then b else a.

(** [min(a, b, c, d)], scanned left to right. *)
Definition py_min4 (a b c d : Q) : Q := py_min (py_min (py_min a b) c) d.

(** [time.ticks_diff(a, b)], away from the wrap-around of the tick counter. *)
Definition ticks_diff (a b : Z) : Z := a - b.

(** ** Constants (lines 7-8, 18-23, 39-44) *)

Definition BUTTON_G : Z := 13.
Definition BUTTON_R : Z := 24.

Definition L_LEFT : Q := (-45)%Q.
Definition L_RIGHT : Q := 45%Q.
Definition L_TOP : Q := (-12)%Q.
Definition L_BOT : Q := 12%Q.

Definition GRAVITY : Q := 0.08%Q.
Definition FRICTION : Q := 0.95%Q.
Definition MAX_SNOW : nat := 10.
Definition MAX_PILE : nat := 200.
Definition ROT_STEPS : Z := 126.
Definition MELT_RATE : Z := 60.

(** ** The program state *)

(** The globals assigned by [start] (lines 11-15, 99-104). *)
Record Globals := mkGlobals {
  SCREEN_W : Z;
  SCREEN_H : Z;
  CX : Z;
  CY : Z;
  GROUND_CHUNKS : Z
}.

(** The [state] dictionary; [start] assigns every key (lines 106-111). *)
Record StateDict := mkState {
  stage : Z;
  start_time : Z;
  a_idx : Z;
  rot : bool;
  ground : list Z;
  tick : Z
}.

(** Parallel arrays of the falling snow (lines 64-70). *)
Record Snow := mkSnow {
  sn_act : list bool;
  sn_x : list Q;
  sn_y : list Q;
  sn_vx : list Q;
  sn_vy : list Q;
  sn_px : list Q;
  sn_py : list Q
}.

(** Parallel arrays of the snow resting on the logo (lines 73-77). *)
Record Pile := mkPile {
  pl_act : list bool;
  pl_rx : list Q;
  pl_ry : list Q;
  pl_sv : list Q;
  pl_edge : list Z
}.

Record World := mkWorld {
  globals : Globals;
  state : StateDict;
  snow : Snow;
  pile : Pile
}.

(** What [start] and [run] read from their argument. *)
Record ViewManager := mkView {
  size_x : Z;
  size_y : Z;
  button : Z
}.

(** What one call draws from the clock and from [random]: the value each
    call site would return if it is reached. *)
Record Oracle := mkOracle {
  ticks_ms_run : Z;
  ticks_ms_start : Z;
  rand : Q;
  rand_r : Z;
  rand_u_vx : Q;
  rand_u_vy : Q
}.

(** The module right after import: the arrays of lines 64-77; the
    dictionary is still empty, its fields here are placeholders that
    [start] overwrites before anything reads them. *)
Definition fallback_globals : Globals := mkGlobals 320 240 160 120 80.

Definition import_world : World :=
  mkWorld fallback_globals
    (mkState 0 0 0 false [] 0)
    (mkSnow (replicate MAX_SNOW false)
       (replicate MAX_SNOW 0%Q) (replicate MAX_SNOW 0%Q)
       (replicate MAX_SNOW 0%Q) (replicate MAX_SNOW 0%Q)
       (replicate MAX_SNOW 0%Q) (replicate MAX_SNOW 0%Q))
    (mkPile (replicate MAX_PILE false)
       (replicate MAX_PILE 0%Q) (replicate MAX_PILE 0%Q)
       (replicate MAX_PILE 0%Q) (replicate MAX_PILE 0)).

(** ** Small pieces shared by the loops *)

(** [for i in range(n): act[i] = False] (lines 113-114). *)
Definition clear_flags (n : nat) (act : list bool) : list bool :=
  fold_left (fun l i => <[i:=false]> l) (seq 0 n) act.

(** [for p in range(n): if not act[p]: ... break]: the slot the scan
    stops at. *)
Definition first_free (n : nat) (act : list bool) : option nat :=
  List.find (fun p => negb (act !!! p)) (seq 0 n).

(** Number of active slots of a pool. *)
Definition active_count (act : list bool) : nat :=
  length (filter (fun b => b = true) act).

(** ** [start] (lines 98-127) *)

Definition start (vm : ViewManager) (o : Oracle) (w : World) : World :=
  let scr_w := size_x vm in
  let scr_h := size_y vm in
  let chunks := scr_w / 4 + 1 in
  let sn := snow w in
  let pl := pile w in
  mkWorld
    (mkGlobals scr_w scr_h (scr_w / 2) (scr_h / 2) chunks)
    (mkState 0 (ticks_ms_start o) 0 false
       (replicate (Z.to_nat chunks) scr_h) 0)
    (mkSnow (clear_flags MAX_SNOW (sn_act sn))
       (sn_x sn) (sn_y sn) (sn_vx sn) (sn_vy sn) (sn_px sn) (sn_py sn))
    (mkPile (clear_flags MAX_PILE (pl_act pl))
       (pl_rx pl) (pl_ry pl) (pl_sv pl) (pl_edge pl)).

(** ** Ground (lines 174-177 and 210-215) *)

(** One iteration of the melt loop. *)
Definition melt_one (scr_h : Z) (g : list Z) (i : nat) : list Z :=
  if g !!! i <? scr_h then <[i := g !!! i + 1]> g else g.

(** The melt loop over [range(_g_chunks)]. *)
Definition melt (g_chunks scr_h : Z) (g : list Z) : list Z :=
  fold_left (melt_one scr_h) (seq 0 (Z.to_nat g_chunks)) g.

(** [chunk = _int(x) >> 2] (line 210). *)
Definition chunk_of (x : Q) : Z := Z.shiftr (py_int x) 2.

(** The ground test of lines 212-215 on the flake bottom [y + 4]:
    the new ground and the [landed] flag. *)
Definition try_land (g_chunks : Z) (g : list Z) (chunk : Z) (bottom : Q)
  : list Z * bool :=
  if (0 <=? chunk) && (chunk <? g_chunks) then
    if Qle_bool (inject_Z (g !!! Z.to_nat chunk)) bottom then
      (<[Z.to_nat chunk := g !!! Z.to_nat chunk - 4]> g, true)
    else (g, false)
  else (g, false).

(** ** Logo frame (lines 218-241 and 293-294) *)

(** Inverse rotation into the logo frame (lines 220-221). *)
Definition to_local (s_ang c_ang dx dy : Q) : Q * Q :=
  (dx * c_ang + dy * s_ang, - dx * s_ang + dy * c_ang)%F.

(** Forward rotation out of the logo frame (lines 293-294, before the
    centre is added). *)
Definition to_world (s_ang c_ang rx ry : Q) : Q * Q :=
  (rx * c_ang - ry * s_ang, rx * s_ang + ry * c_ang)%F.

(** The bounding-box test of line 223. *)
Definition in_box (lx ly : Q) : bool :=
  Qle_bool L_LEFT lx && Qle_bool lx L_RIGHT &&
  Qle_bool L_TOP ly && Qle_bool ly L_BOT.

(** Lines 224-241: the snapped position and the edge id
    (0 = top, 1 = bottom, 2 = left, 3 = right). *)
Definition snap (lx ly : Q) : Q * Q * Z :=
  let dt := Qabs (ly - L_TOP)%F in
  let db := Qabs (ly - L_BOT)%F in
  let dl := Qabs (lx - L_LEFT)%F in
  let dr := Qabs (lx - L_RIGHT)%F in
  let m := py_min4 dt db dl dr in
  if Qeq_bool m dt then (lx, L_TOP, 0)
  else if Qeq_bool m db then (lx, L_BOT, 1)
  else if Qeq_bool m dl then (L_LEFT, ly, 2)
  else (L_RIGHT, ly, 3).

(** Lines 230-242: take the first dormant pile slot, if there is one. *)
Definition pile_alloc (lx ly : Q) (pl : Pile) : Pile :=
  match first_free MAX_PILE (pl_act pl) with
  | Some p =>
      let '(rx, ry, e) := snap lx ly in
      mkPile (<[p := true]> (pl_act pl))
             (<[p := rx]> (pl_rx pl))
             (<[p := ry]> (pl_ry pl))
             (<[p := 0%Q]> (pl_sv pl))
             (<[p := e]> (pl_edge pl))
  | None => pl
  end.

(** Lines 217-243: the logo test, run when the ground test failed. *)
Definition body_test (s_ang c_ang : Q) (cx cy : Z) (x y : Q) (pl : Pile)
  : Pile * bool :=
  let dx := (x - inject_Z cx)%F in
  let dy := (y - inject_Z cy)%F in
  let '(lx, ly) := to_local s_ang c_ang dx dy in
  if in_box lx ly then (pile_alloc lx ly pl, true) else (pl, false).

(** ** One falling flake (body of the loop of lines 194-246) *)

Definition snow_step (s_ang c_ang : Q) (w : World) (i : nat) : World :=
  let gl := globals w in
  let st := state w in
  let sn := snow w in
  if negb (sn_act sn !!! i) then w
  else
    let x0 := sn_x sn !!! i in
    let y0 := sn_y sn !!! i in
    let vy := (sn_vy sn !!! i + GRAVITY)%F in
    let x := (x0 + sn_vx sn !!! i)%F in
    let y := (y0 + vy)%F in
    let chunk := chunk_of x in
    let '(g', on_ground) :=
      try_land (GROUND_CHUNKS gl) (ground st) chunk (y + 4%Q)%F in
    let '(pl', landed) :=
      if on_ground then (pile w, true)
      else body_test s_ang c_ang (CX gl) (CY gl) x y (pile w) in
    let act' :=
      if landed || Qle_bool (inject_Z (SCREEN_H gl)) y
      then <[i := false]> (sn_act sn) else sn_act sn in
    mkWorld gl
      (mkState (stage st) (start_time st) (a_idx st) (rot st) g' (tick st))
      (mkSnow act'
         (<[i := x]> (sn_x sn)) (<[i := y]> (sn_y sn))
         (sn_vx sn) (<[i := vy]> (sn_vy sn))
         (<[i := x0]> (sn_px sn)) (<[i := y0]> (sn_py sn)))
      pl'.

Definition snow_pass (s_ang c_ang : Q) (w : World) : World :=
  fold_left (snow_step s_ang c_ang) (seq 0 MAX_SNOW) w.

(** ** One pile particle (body of the loop of lines 251-306) *)

(** [v < lo or v > hi] (lines 264, 271, 278, 285). *)
Definition off_edge (v lo hi : Q) : bool := Qltb v lo || Qltb hi v.

(** Lines 258-285: the [fall] flag and the new [sv], [rx], [ry]. *)
Definition slide (e : Z) (gx gy sv rx ry : Q) : bool * Q * Q * Q :=
  if e =? 0 then
    if Qltb gy 0 then (true, sv, rx, ry)
    else
      let sv' := ((sv + gx) * FRICTION)%F in
      let rx' := (rx + sv')%F in
      (off_edge rx' L_LEFT L_RIGHT, sv', rx', ry)
  else if e =? 1 then
    if Qltb 0 gy then (true, sv, rx, ry)
    else
      let sv' := ((sv + gx) * FRICTION)%F in
      let rx' := (rx + sv')%F in
      (off_edge rx' L_LEFT L_RIGHT, sv', rx', ry)
  else if e =? 2 then
    if Qltb 0 gx then (true, sv, rx, ry)
    else
      let sv' := ((sv + gy) * FRICTION)%F in
      let ry' := (ry + sv')%F in
      (off_edge ry' L_TOP L_BOT, sv', rx, ry')
  else if e =? 3 then
    if Qltb gx 0 then (true, sv, rx, ry)
    else
      let sv' := ((sv + gy) * FRICTION)%F in
      let ry' := (ry + sv')%F in
      (off_edge ry' L_TOP L_BOT, sv', rx, ry')
  else (false, sv, rx, ry).

(** Lines 300-306: hand the particle back to the first dormant flake. *)
Definition snow_alloc (ax ay vx vy : Q) (sn : Snow) : Snow :=
  match first_free MAX_SNOW (sn_act sn) with
  | Some i =>
      mkSnow (<[i := true]> (sn_act sn))
             (<[i := ax]> (sn_x sn)) (<[i := ay]> (sn_y sn))
             (<[i := vx]> (sn_vx sn)) (<[i := vy]> (sn_vy sn))
             (<[i := ax]> (sn_px sn)) (<[i := ay]> (sn_py sn))
  | None => sn
  end.

(** Lines 289-306: what a falling particle turns into. *)
Definition fall_off (s_ang c_ang : Q) (cx cy : Z) (e : Z) (sv rx ry : Q)
  (sn : Snow) : Snow :=
  let '(wx, wy) := to_world s_ang c_ang rx ry in
  let ax := (wx + inject_Z cx)%F in
  let ay := (wy + inject_Z cy)%F in
  let '(vx, vy) :=
    if e <? 2 then ((sv * c_ang)%F, (sv * s_ang + 1.0%Q)%F)
    else ((- sv * s_ang)%F, (sv * c_ang + 1.0%Q)%F) in
  snow_alloc ax ay vx vy sn.

(** The body of the loop.  [slide] returns the coordinates unchanged where
    the source does not assign them, so writing them back is the
    identity there. *)
Definition pile_step (s_ang c_ang gx gy : Q) (w : World) (p : nat) : World :=
  let gl := globals w in
  let pl := pile w in
  if negb (pl_act pl !!! p) then w
  else
    let e := pl_edge pl !!! p in
    let '(fall, sv, rx, ry) :=
      slide e gx gy (pl_sv pl !!! p) (pl_rx pl !!! p) (pl_ry pl !!! p) in
    let pl' :=
      mkPile (if fall then <[p := false]> (pl_act pl) else pl_act pl)
             (<[p := rx]> (pl_rx pl)) (<[p := ry]> (pl_ry pl))
             (<[p := sv]> (pl_sv pl)) (pl_edge pl) in
    let sn' :=
      if fall then fall_off s_ang c_ang (CX gl) (CY gl) e sv rx ry (snow w)
      else snow w in
    mkWorld gl (state w) sn' pl'.

(** Lines 248-306. *)
Definition pile_pass (s_ang c_ang : Q) (w : World) : World :=
  let gx := (s_ang * GRAVITY * 2.0%Q)%F in
  let gy := (c_ang * GRAVITY * 2.0%Q)%F in
  fold_left (pile_step s_ang c_ang gx gy) (seq 0 MAX_PILE) w.

(** ** [run] (lines 129-306) *)

Section Run.

(** The two button codes imported from [picoware.system.buttons]. *)
Variables BUTTON_BACK BUTTON_ESCAPE : Z.

(** The lookup tables of lines 47-52.  The source fills them with
    [math.sin] and [math.cos] of [i * 0.05]; those library functions are
    outside the embedding, so the tables are parameters. *)
Variables SIN_LUT COS_LUT : list Q.

(** Lines 179-189: at most one new flake. *)
Definition spawn (o : Oracle) (sn : Snow) : Snow :=
  if Qltb (rand o) 0.4 then
    match first_free MAX_SNOW (sn_act sn) with
    | Some i =>
        let x := inject_Z (rand_r o) in
        let y := (-5.0)%Q in
        mkSnow (<[i := true]> (sn_act sn))
               (<[i := x]> (sn_x sn)) (<[i := y]> (sn_y sn))
               (<[i := rand_u_vx o]> (sn_vx sn))
               (<[i := rand_u_vy o]> (sn_vy sn))
               (<[i := x]> (sn_px sn)) (<[i := y]> (sn_py sn))
    | None => sn
    end
  else sn.

(** Lines 171-192: tick counter, melt, spawn and rotation advance; [a] is
    the local [a_idx] read at line 166. *)
Definition pre_pass (o : Oracle) (a : Z) (w : World) : World :=
  let gl := globals w in
  let st := state w in
  let tick' := tick st + 1 in
  let g' :=
    if tick' mod MELT_RATE =? 0
    then melt (GROUND_CHUNKS gl) (SCREEN_H gl) (ground st)
    else ground st in
  let a' := if rot st then (a + 1) mod ROT_STEPS else a_idx st in
  mkWorld gl
    (mkState (stage st) (start_time st) a' (rot st) g' tick')
    (spawn o (snow w)) (pile w).

(** Lines 194-306: the collision pass, then the edge-slide pass. *)
Definition passes (s_ang c_ang : Q) (w : World) : World :=
  pile_pass s_ang c_ang (snow_pass s_ang c_ang w).

(** Lines 166-306. *)
Definition simulate (o : Oracle) (w : World) : World :=
  let a := a_idx (state w) in
  let s_ang := SIN_LUT !!! Z.to_nat a in
  let c_ang := COS_LUT !!! Z.to_nat a in
  if stage (state w) =? 1
  then passes s_ang c_ang (pre_pass o a w)
  else w.

(** [k] successive active ticks, tick [j] drawing from oracle [o j]. *)
Fixpoint sim_ticks (o : nat -> Oracle) (k : nat) (w : World) : World :=
  match k with
  | O => w
  | S k' => simulate (o k') (sim_ticks o k' w)
  end.

Definition set_rot (b : bool) (w : World) : World :=
  let st := state w in
  mkWorld (globals w)
    (mkState (stage st) (start_time st) (a_idx st) b (ground st) (tick st))
    (snow w) (pile w).

Definition set_stage (n : Z) (w : World) : World :=
  let st := state w in
  mkWorld (globals w)
    (mkState n (start_time st) (a_idx st) (rot st) (ground st) (tick st))
    (snow w) (pile w).

(** Lines 151-164: the input handling and the stage timer. *)
Definition run (vm : ViewManager) (o : Oracle) (w : World) : World :=
  let b := button vm in
  if (b =? BUTTON_BACK) || (b =? BUTTON_ESCAPE) then w
  else
    let w1 :=
      if (b =? BUTTON_G) && (stage (state w) =? 1)
      then set_rot (negb (rot (state w))) w else w in
    if b =? BUTTON_R then start vm o w1
    else
      let w2 :=
        if (stage (state w1) =? 0) &&
           (5000 <? ticks_diff (ticks_ms_run o) (start_time (state w1)))
        then set_stage 1 w1 else w1 in
      simulate o w2.

(** The worlds the host can produce: [start] on the freshly imported
    module, then any number of [run] calls. *)
Inductive reachable : World -> Prop :=
| reach_start vm o : reachable (start vm o import_world)
| reach_run vm o w : reachable w -> reachable (run vm o w).

End Run.

(** ** [cache_line] (lines 79-96) *)

(** The [while True] loop of lines 86-96 with the local variables it
    updates, [x0], [y0] and [err]; [fuel] bounds the iterations. *)
Fixpoint cache_line_loop (fuel : nat) (pts_list : list Z)
    (x0 y0 x1 y1 dx dy sx sy err : Z) : option (list Z) :=
  match fuel with
  | O => None
  | S fuel' =>
      let pts_list := pts_list ++ [x0; y0] in
      if (x0 =? x1) && (y0 =? y1) then Some pts_list
      else
        let e2 := 2 * err in
        let '(err, x0) :=
          if dy <=? e2 then (err + dy, x0 + sx) else (err, x0) in
        let '(err, y0) :=
          if e2 <=? dx then (err + dx, y0 + sy) else (err, y0) in
        cache_line_loop fuel' pts_list x0 y0 x1 y1 dx dy sx sy err
  end.

(** The fuel handed to the loop: one iteration more than the two
    distances together. *)
Definition cache_line_fuel (x0 y0 x1 y1 : Z) : nat :=
  S (Z.to_nat (Z.abs (x1 - x0) + Z.abs (y1 - y0))).

(** [cache_line(pts_list, x0, y0, x1, y1)]: the list after the call. *)
Definition cache_line (pts_list : list Z) (x0 y0 x1 y1 : Q) : option (list Z) :=
  let x0 := py_int x0 in
  let y0 := py_int y0 in
  let x1 := py_int x1 in
  let y1 := py_int y1 in
  let dx := Z.abs (x1 - x0) in
  let sx := if x0 <? x1 then 1 else -1 in
  let dy := - Z.abs (y1 - y0) in
  let sy := if y0 <? y1 then 1 else -1 in
  let err := dx + dy in
  cache_line_loop (cache_line_fuel x0 y0 x1 y1) pts_list
    x0 y0 x1 y1 dx dy sx sy err.

(** The flat list of coordinates of a list of points, as the caches
    store them and as the drawing loops read them back. *)
Definition flat (ps : list (Z * Z)) : list Z :=
  concat (map (fun p => [fst p; snd p]) ps).

(** Two points one pixel step apart in the direction [(sx, sy)]:
    each coordinate stays or moves by its step, not both stay. *)
Definition pixel_step (sx sy : Z) (p q : Z * Z) : Prop :=
  (fst q = fst p \/ fst q = fst p + sx) /\
  (snd q = snd p \/ snd q = snd p + sy) /\
  q <> p.

(** Every point of the list is one pixel step from the one before. *)
Fixpoint chain (sx sy : Z) (p : Z * Z) (ps : list (Z * Z)) : Prop :=
  match ps with
  | [] => True
  | q :: ps' => pixel_step sx sy p q /\ chain sx sy q ps'
  end.

(** ** The render caches (lines 27-37 and 115-123) *)

(** The segments of the vector text, as [(x0, y0, x1, y1)]. *)
Definition LOGO_LINES : list (Z * Z * Z * Z) :=
  [(-39, -6, -34, -6); (-39, -6, -39, 0); (-39, 0, -34, 0); (-34, 0, -34, 6);
   (-34, 6, -39, 6);
   (-31, -6, -31, 6); (-31, 6, -26, 6);
   (-23, 6, -23, -6); (-23, -6, -18, -6); (-18, -6, -18, 6); (-23, 0, -18, 0);
   (-15, -6, -10, -6); (-15, -6, -15, 0); (-15, 0, -10, 0); (-10, 0, -10, 6);
   (-10, 6, -15, 6);
   (-7, -6, -7, 6); (-2, -6, -2, 6); (-7, 0, -2, 0);
   (1, -6, 1, 6); (1, -6, 6, -6); (1, 0, 5, 0); (1, 6, 6, 6);
   (9, -6, 9, 6); (9, -6, 14, -6); (14, -6, 14, 0); (9, 0, 14, 0);
   (9, 0, 14, 6);
   (17, -6, 17, 6); (22, -6, 22, 6); (17, -6, 22, -6); (17, 6, 22, 6);
   (22, -6, 17, 6);
   (25, -6, 25, 6); (30, -6, 30, 6); (25, -6, 30, -6); (25, 6, 30, 6);
   (30, -6, 25, 6);
   (33, -6, 38, -6); (33, -6, 33, 6); (33, 6, 38, 6); (38, 0, 38, 6);
   (33, 0, 38, 0)].

(** [for line in lines: cache_line(pts_list, line[0], ..., line[3])]. *)
Fixpoint cache_lines (pts_list : list Z) (lines : list (Z * Z * Z * Z))
  : option (list Z) :=
  match lines with
  | [] => Some pts_list
  | (x0, y0, x1, y1) :: lines' =>
      match cache_line pts_list (inject_Z x0) (inject_Z y0)
              (inject_Z x1) (inject_Z y1) with
      | Some pts_list' => cache_lines pts_list' lines'
      | None => None
      end
  end.


(** Lines 115-123 of [start]: both caches are emptied, then filled; the
    result is [(box_pts, text_pts)]. *)
Definition start_caches (box_pts text_pts : list Z)
  : option (list Z * list Z) :=
  let box_pts := @nil Z in
  let text_pts := @nil Z in
  match cache_line box_pts L_LEFT L_TOP L_RIGHT L_TOP with
  | Some box_pts =>
  match cache_line box_pts L_RIGHT L_TOP L_RIGHT L_BOT with
  | Some box_pts =>
  match cache_line box_pts L_RIGHT L_BOT L_LEFT L_BOT with
  | Some box_pts =>
  match cache_line box_pts L_LEFT L_BOT L_LEFT L_TOP with
  | Some box_pts =>
  match cache_lines text_pts LOGO_LINES with
  | Some text_pts => Some (box_pts, text_pts)
  | None => None
  end
  | None => None end
  | None => None end
  | None => None end
  | None => None end.

(** [stop] (lines 364-368): both caches are emptied. *)
Definition stop (box_pts text_pts : list Z) : list Z * list Z := ([], []).

(** ** The drawing pass (lines 308-362) *)

Inductive Color := TFT_WHITE | TFT_BLACK | TFT_BLUE | TFT_CYAN | TFT_YELLOW.

(** A call of a method of [view_manager.draw], with the values the
    shared vectors [v_pos], [v_size], [v_flake] and [v_pixel] hold when
    the call is made. *)
Inductive DrawCall :=
| fill_screen (c : Color)
| rect (x y w h : Z) (c : Color)
| pixel (x y : Z) (c : Color)
| text (x y : Z) (s : String.string) (c : Color)
| swap.

(** Lines 312-319: one rectangle for each column that holds snow. *)
Definition render_ground (gl : Globals) (g : list Z) : list DrawCall :=
  flat_map
    (fun i =>
       let y_top := g !!! i in
       if y_top <? SCREEN_H gl
       then [rect (Z.shiftl (Z.of_nat i) 2) y_top 4 (SCREEN_H gl - y_top)
               TFT_WHITE]
       else [])
    (seq 0 (Z.to_nat (GROUND_CHUNKS gl))).

(** Lines 321-325: one 4x4 rectangle for each active flake. *)
Definition render_snow (sn : Snow) : list DrawCall :=
  flat_map
    (fun i =>
       if sn_act sn !!! i : bool
       then [rect (py_int (sn_x sn !!! i)) (py_int (sn_y sn !!! i)) 4 4
               TFT_WHITE]
       else [])
    (seq 0 MAX_SNOW).

(** The screen position of a point of the logo frame (lines 329-330,
    335-336 and 342-343). *)
Definition logo_pixel (s_ang c_ang : Q) (cx cy : Z) (px py : Q) : Z * Z :=
  (py_int (px * c_ang - py * s_ang)%F + cx,
   py_int (px * s_ang + py * c_ang)%F + cy).

(** Lines 327-331 and 333-337: a cache read back two entries at a time;
    [pts[i+1]] on a list of odd length raises [IndexError]. *)
Fixpoint render_pts (s_ang c_ang : Q) (cx cy : Z) (col : Color)
    (pts : list Z) : option (list DrawCall) :=
  match pts with
  | [] => Some []
  | [_] => None
  | px :: py :: pts' =>
      let '(x, y) := logo_pixel s_ang c_ang cx cy (inject_Z px) (inject_Z py) in
      match render_pts s_ang c_ang cx cy col pts' with
      | Some calls => Some (pixel x y col :: calls)
      | None => None
      end
  end.

(** Lines 339-344: one pixel for each active pile particle. *)
Definition render_pile (s_ang c_ang : Q) (cx cy : Z) (pl : Pile)
  : list DrawCall :=
  flat_map
    (fun i =>
       if pl_act pl !!! i : bool
       then
         let '(x, y) :=
           logo_pixel s_ang c_ang cx cy (pl_rx pl !!! i) (pl_ry pl !!! i) in
         [pixel x y TFT_WHITE]
       else [])
    (seq 0 MAX_PILE).

(** Lines 346-360: the help texts of the two stages. *)
Definition render_ui (st : StateDict) : list DrawCall :=
  if stage st =? 0 then
    [text 10 10 "WAIT 5 SECONDS..."%string TFT_YELLOW;
     text 10 25 "[ESC]: EXIT"%string TFT_YELLOW]
  else if stage st =? 1 then
    let rot_status := if negb (rot st) then "PAUSED"%string else "ROTATING"%string in
    [text 5 5 (String.append "[G]: "%string rot_status) TFT_YELLOW;
     text 5 20 "[R]: RESET"%string TFT_YELLOW;
     text 5 35 "[ESC]: EXIT"%string TFT_YELLOW]
  else [].

(** Lines 308-362: the calls of one frame, in order. *)
Definition render (box_pts text_pts : list Z) (s_ang c_ang : Q) (w : World)
  : option (list DrawCall) :=
  let gl := globals w in
  match render_pts s_ang c_ang (CX gl) (CY gl) TFT_BLUE box_pts with
  | Some box_calls =>
      match render_pts s_ang c_ang (CX gl) (CY gl) TFT_CYAN text_pts with
      | Some text_calls =>
          Some ([fill_screen TFT_BLACK]
                ++ render_ground gl (ground (state w))
                ++ render_snow (snow w)
                ++ box_calls ++ text_calls
                ++ render_pile s_ang c_ang (CX gl) (CY gl) (pile w)
                ++ render_ui (state w)
                ++ [swap])
      | None => None
      end
  | None => None
  end.

(** The method a call invokes, with the colour for pixels. *)
Inductive CallKind :=
| k_fill | k_rect | k_pixel (c : Color) | k_text | k_swap.

Definition kind_of (d : DrawCall) : CallKind :=
  match d with
  | fill_screen _ => k_fill
  | rect _ _ _ _ _ => k_rect
  | pixel _ _ c => k_pixel c
  | text _ _ _ _ => k_text
  | swap => k_swap
  end.

#[global] Instance Color_eq_dec : EqDecision Color.
Proof. solve_decision. Defined.

#[global] Instance CallKind_eq_dec : EqDecision CallKind.
Proof. solve_decision. Defined.

(** The calls of one kind, counted. *)
Definition count_calls (k : CallKind) (calls : list DrawCall) : nat :=
  length (List.filter (fun d => bool_decide (kind_of d = k)) calls).

Section Frame.

Variables BUTTON_BACK BUTTON_ESCAPE : Z.
Variables SIN_LUT COS_LUT : list Q.

(** The drawing calls of one call of [run] (lines 151-162 and 166-168,
    then the drawing pass on the state the simulation leaves): none on
    exit, the black frame of [start] on a reset. *)
Definition run_frame (box_pts text_pts : list Z)
    (vm : ViewManager) (o : Oracle) (w : World) : option (list DrawCall) :=
  let b := button vm in
  if (b =? BUTTON_BACK) || (b =? BUTTON_ESCAPE) then Some []
  else
    let w1 :=
      if (b =? BUTTON_G) && (stage (state w) =? 1)
      then set_rot (negb (rot (state w))) w else w in
    if b =? BUTTON_R then Some [fill_screen TFT_BLACK; swap]
    else
      let w2 :=
        if (stage (state w1) =? 0) &&
           (5000 <? ticks_diff (ticks_ms_run o) (start_time (state w1)))
        then set_stage 1 w1 else w1 in
      let a := a_idx (state w2) in
      render box_pts text_pts
        (SIN_LUT !!! Z.to_nat a) (COS_LUT !!! Z.to_nat a)
        (simulate SIN_LUT COS_LUT o w2).

End Frame.

(** ** Concrete inputs *)

(** The sines of [i * 0.05] for [i < 126], rounded to nine decimals: an
    instance of [SIN_LUT] for concrete runs. *)
Definition SIN_LUT_9 : list Q :=
  [0; 0.049979169; 0.099833417; 0.149438132; 0.198669331;
   0.247403959; 0.295520207; 0.342897807; 0.389418342; 0.434965534;
   0.479425539; 0.522687229; 0.564642473; 0.605186406; 0.644217687;
   0.681638760; 0.717356091; 0.751280405; 0.783326910; 0.813415505;
   0.841470985; 0.867423226; 0.891207360; 0.912763940; 0.932039086;
   0.948984619; 0.963558185; 0.975723358; 0.985449730; 0.992712991;
   0.997494987; 0.999783764; 0.999573603; 0.996865028; 0.991664810;
   0.983985947; 0.973847631; 0.961275203; 0.946300088; 0.928959715;
   0.909297427; 0.887362369; 0.863209367; 0.836898791; 0.808496404;
   0.778073197; 0.745705212; 0.711473353; 0.675463181; 0.637764702;
   0.598472144; 0.557683717; 0.515501372; 0.472030541; 0.427379880;
   0.381660992; 0.334988150; 0.287478012; 0.239249329; 0.190422647;
   0.141120008; 0.091464642; 0.041580662; (-0.008407247); (-0.058374143);
   (-0.108195135); (-0.157745694); (-0.206901972); (-0.255541102); (-0.303541513);
   (-0.350783228); (-0.397148167); (-0.442520443); (-0.486786649); (-0.529836141);
   (-0.571561319); (-0.611857891); (-0.650625137); (-0.687766159); (-0.723188124);
   (-0.756802495); (-0.788525254); (-0.818277111); (-0.845983701); (-0.871575772);
   (-0.894989358); (-0.916165937); (-0.935052578); (-0.951602074); (-0.965773061);
   (-0.977530118); (-0.986843859); (-0.993691004); (-0.998054439); (-0.999923258);
   (-0.999292789); (-0.996164609); (-0.990546536); (-0.982452613); (-0.971903069);
   (-0.958924275); (-0.943548669); (-0.925814682); (-0.905766641); (-0.883454656);
   (-0.858934493); (-0.832267442); (-0.803520156); (-0.772764488); (-0.740077310);
   (-0.705540326); (-0.669239857); (-0.631266638); (-0.591715581); (-0.550685543);
   (-0.508279077); (-0.464602179); (-0.419764018); (-0.373876665); (-0.327054815);
   (-0.279415498); (-0.231077788); (-0.182162504); (-0.132791909); (-0.083089403);
   (-0.033179217)]%Q.

(** The cosines of [i * 0.05] for [i < 126], rounded to nine decimals. *)
Definition COS_LUT_9 : list Q :=
  [1; 0.998750260; 0.995004165; 0.988771078; 0.980066578;
   0.968912422; 0.955336489; 0.939372713; 0.921060994; 0.900447102;
   0.877582562; 0.852524522; 0.825335615; 0.796083799; 0.764842187;
   0.731688869; 0.696706709; 0.659983146; 0.621609968; 0.581683089;
   0.540302306; 0.497571048; 0.453596121; 0.408487441; 0.362357754;
   0.315322362; 0.267498829; 0.219006687; 0.169967143; 0.120502769;
   0.070737202; 0.020794828; (-0.029199522); (-0.079120889); (-0.128844494);
   (-0.178246056); (-0.227202095); (-0.275590247); (-0.323289567); (-0.370180831);
   (-0.416146837); (-0.461072691); (-0.504846105); (-0.547357665); (-0.588501117);
   (-0.628173623); (-0.666276021); (-0.702713077); (-0.737393716); (-0.770231254);
   (-0.801143616); (-0.830053535); (-0.856888753); (-0.881582196); (-0.904072142);
   (-0.924302379); (-0.942222341); (-0.957787238); (-0.970958165); (-0.981702203);
   (-0.989992497); (-0.995808325); (-0.999135150); (-0.999964658); (-0.998294776);
   (-0.994129676); (-0.987479770); (-0.978361679); (-0.966798193); (-0.952818215);
   (-0.936456687); (-0.917754506); (-0.896758416); (-0.873520898); (-0.848100032);
   (-0.820559357); (-0.790967712); (-0.759399059); (-0.725932304); (-0.690651097);
   (-0.653643621); (-0.615002377); (-0.574823947); (-0.533208756); (-0.490260821);
   (-0.446087490); (-0.400799172); (-0.354509065); (-0.307332870); (-0.259388503);
   (-0.210795799); (-0.161676216); (-0.112152527); (-0.062348515); (-0.012388663);
   0.037602153; 0.087498983; 0.137177112; 0.186512369; 0.235381443;
   0.283662185; 0.331233920; 0.377977743; 0.423776818; 0.468516671;
   0.512085477; 0.554374336; 0.595277548; 0.634692876; 0.672521802;
   0.708669774; 0.743046441; 0.775565879; 0.806146805; 0.834712785;
   0.861192417; 0.885519517; 0.907633279; 0.927478431; 0.945005369;
   0.960170287; 0.972935278; 0.983268438; 0.991143940; 0.996542097;
   0.999449418]%Q.

(** A run of the host: one [run] call per oracle of the list. *)
Definition run_seq (bb be : Z) (sl cl : list Q) (vm : ViewManager)
    (os : list Oracle) (w : World) : World :=
  fold_left (fun w o => run bb be sl cl vm o w) os w.

(** A 320x240 screen with no key pressed. *)
Definition idle_view : ViewManager := mkView 320 240 (-1).

(** Frame [k] of a snowfall onto one column: the clock is past the
    5-second wait, [random()] returns 0.1, the flake is spawned at
    [x = 100] with no drift and the fall speed 1.5. *)
Definition column_oracle (k : nat) : Oracle :=
  mkOracle (6000 + 33 * Z.of_nat k) 0 0.1 100 0 1.5.

(** Frame [k] of a tick without a spawn ([random()] returns 0.9). *)
Definition quiet_oracle (k : nat) : Oracle :=
  mkOracle (6000 + 33 * Z.of_nat k) 0 0.9 0 0 1.

(** The world right after [start] on the 320x240 screen. *)
Definition fresh_world : World :=
  start idle_view (column_oracle 0) import_world.

(** An active world (stage 1) whose only flake sits in slot 0. *)
Definition one_flake (rotating : bool) (x y vx vy : Q) : World :=
  let w := fresh_world in
  let sn := snow w in
  mkWorld (globals w)
    (mkState 1 0 0 rotating (ground (state w)) 0)
    (mkSnow (<[0%nat := true]> (sn_act sn))
       (<[0%nat := x]> (sn_x sn)) (<[0%nat := y]> (sn_y sn))
       (<[0%nat := vx]> (sn_vx sn)) (<[0%nat := vy]> (sn_vy sn))
       (<[0%nat := x]> (sn_px sn)) (<[0%nat := y]> (sn_py sn)))
    (pile w).

(** Scenario A: the flake a spawn with [randrange] 100, drift 0 and fall
    speed 0.5 puts in slot 0 of the fresh world, in the active stage. *)
Definition scenario_A : World := one_flake false 100 (-5.0) 0 0.5.

(** The oracle of that spawn ([random()] returns 0.1). *)
Definition scenario_A_oracle : Oracle := mkOracle 6000 0 0.1 100 0 0.5.

(** The same with every pile slot taken. *)
Definition full_pile (w : World) : World :=
  let pl := pile w in
  mkWorld (globals w) (state w) (snow w)
    (mkPile (replicate MAX_PILE true)
       (pl_rx pl) (pl_ry pl) (pl_sv pl) (pl_edge pl)).

(** An active world with every flake slot taken and one pile particle,
    in slot 0, on the edge [e] at [(rx, ry)] with slide velocity [sv]. *)
Definition one_particle (full : bool) (e : Z) (rx ry sv : Q) : World :=
  let w := fresh_world in
  let sn := snow w in
  let pl := pile w in
  mkWorld (globals w)
    (mkState 1 0 0 false (ground (state w)) 0)
    (mkSnow (replicate MAX_SNOW full)
       (sn_x sn) (sn_y sn) (sn_vx sn) (sn_vy sn) (sn_px sn) (sn_py sn))
    (mkPile (<[0%nat := true]> (pl_act pl))
       (<[0%nat := rx]> (pl_rx pl)) (<[0%nat := ry]> (pl_ry pl))
       (<[0%nat := sv]> (pl_sv pl)) (<[0%nat := e]> (pl_edge pl))).

(** Frame [k] of a snowfall onto the logo: as [column_oracle], the flake
    spawned at [x = 160], the middle of the 320x240 screen. *)
Definition logo_oracle (k : nat) : Oracle :=
  mkOracle (6000 + 33 * Z.of_nat k) 0 0.1 160 0 1.5.

(** A 320x240 screen with the key G pressed. *)
Definition g_view : ViewManager := mkView 320 240 BUTTON_G.

(** ** Vocabulary of the statements *)

(** The velocity and position a flake has after the integration of
    lines 202-207. *)
Definition next_vy (w : World) (i : nat) : Q :=
  (sn_vy (snow w) !!! i + GRAVITY)%F.

Definition next_x (w : World) (i : nat) : Q :=
  (sn_x (snow w) !!! i + sn_vx (snow w) !!! i)%F.

Definition next_y (w : World) (i : nat) : Q :=
  (sn_y (snow w) !!! i + next_vy w i)%F.

(** The ground test and the logo test as flake [i] meets them. *)
Definition ground_test (w : World) (i : nat) : list Z * bool :=
  try_land (GROUND_CHUNKS (globals w)) (ground (state w))
    (chunk_of (next_x w i)) (next_y w i + 4%Q)%F.

Definition logo_test (s_ang c_ang : Q) (w : World) (i : nat) : Pile * bool :=
  body_test s_ang c_ang (CX (globals w)) (CY (globals w))
    (next_x w i) (next_y w i) (pile w).

(** The arrays of a pool keep the length they were allocated with. *)
Definition snow_wf (sn : Snow) : Prop :=
  length (sn_act sn) = MAX_SNOW /\ length (sn_x sn) = MAX_SNOW /\
  length (sn_y sn) = MAX_SNOW /\ length (sn_vx sn) = MAX_SNOW /\
  length (sn_vy sn) = MAX_SNOW /\ length (sn_px sn) = MAX_SNOW /\
  length (sn_py sn) = MAX_SNOW.

Definition pile_wf (pl : Pile) : Prop :=
  length (pl_act pl) = MAX_PILE /\ length (pl_rx pl) = MAX_PILE /\
  length (pl_ry pl) = MAX_PILE /\ length (pl_sv pl) = MAX_PILE /\
  length (pl_edge pl) = MAX_PILE.

(** Distance from a local point to the edge with id [e], as lines
    224-227 compute it. *)
Definition edge_dist (lx ly : Q) (e : Z) : Q :=
  if e =? 0 then Qabs (ly - L_TOP)%F
  else if e =? 1 then Qabs (ly - L_BOT)%F
  else if e =? 2 then Qabs (lx - L_LEFT)%F
  else Qabs (lx - L_RIGHT)%F.

(** The state invariant: array lengths, valid angle index, and no ground
    column below the floor line [SCREEN_H]. *)
Record inv (w : World) : Prop := mkInv {
  inv_snow : snow_wf (snow w);
  inv_pile : pile_wf (pile w);
  inv_chunks : length (ground (state w)) = Z.to_nat (GROUND_CHUNKS (globals w));
  inv_floor : Forall (fun h => h <= SCREEN_H (globals w)) (ground (state w));
  inv_angle : 0 <= a_idx (state w) < ROT_STEPS
}.

(** What the melt step makes of one height. *)
Definition melted (scr_h v : Z) : Z := if v <? scr_h then v + 1 else v.

(** The [fall] flag of pile particle [p] in this tick. *)
Definition falls (gx gy : Q) (w : World) (p : nat) : bool :=
  let pl := pile w in
  fst (fst (fst (slide (pl_edge pl !!! p) gx gy
                   (pl_sv pl !!! p) (pl_rx pl !!! p) (pl_ry pl !!! p)))).

(** The world with the stored angle index replaced. *)
Definition set_a_idx (a : Z) (w : World) : World :=
  let st := state w in
  mkWorld (globals w)
    (mkState (stage st) (start_time st) a (rot st) (ground st) (tick st))
    (snow w) (pile w).

(** What the simulation knows of flake [i] and of pile particle [p]. *)
Definition flake_of (w : World) (i : nat) : bool * Q * Q * Q * Q :=
  let sn := snow w in
  (sn_act sn !!! i, sn_x sn !!! i, sn_y sn !!! i,
   sn_vx sn !!! i, sn_vy sn !!! i).

Definition particle_of (w : World) (p : nat) : bool * Q * Q * Q * Z :=
  let pl := pile w in
  (pl_act pl !!! p, pl_rx pl !!! p, pl_ry pl !!! p,
   pl_sv pl !!! p, pl_edge pl !!! p).

Definition flake_active (w : World) (i : nat) : bool := sn_act (snow w) !!! i.
Definition particle_active (w : World) (p : nat) : bool := pl_act (pile w) !!! p.

(** Position and velocity [(x, y, vx, vy)] held in a flake slot. *)
Definition kin_of (w : World) (i : nat) : Q * Q * Q * Q :=
  let sn := snow w in
  (sn_x sn !!! i, sn_y sn !!! i, sn_vx sn !!! i, sn_vy sn !!! i).

(** Lines 202-207 on one flake: [vy += GRAVITY], [x += vx], [y += vy]. *)
Definition integrate (k : Q * Q * Q * Q) : Q * Q * Q * Q :=
  let '(x, y, vx, vy) := k in
  let vy' := (vy + GRAVITY)%F in
  ((x + vx)%F, (y + vy')%F, vx, vy').

(** Height after [k] ticks of free fall from [y0] with fall speed [vy0]:
    the sum of the [k] increments [vy0 + j * GRAVITY], [j = 1..k]. *)
Definition free_fall_y (y0 vy0 : Q) (k : nat) : Q :=
  let n := inject_Z (Z.of_nat k) in
  (y0 + n * vy0 + GRAVITY * (n * (n + 1) / 2))%Q.

(** Check [chk (k + j)] on the [j]-th iterate of [f], for [j = 0..n]. *)
Fixpoint check_traj {T : Type} (f : T -> T) (chk : nat -> T -> bool)
    (k n : nat) (w : T) : bool :=
  chk k w &&
  match n with
  | O => true
  | S n' => check_traj f chk (S k) n' (f w)
  end.

(** What the tick-by-tick check of scenario A tests after [k] ticks. *)
Definition scenario_A_check (k : nat) (w : World) : bool :=
  Qeq_bool (sn_y (snow w) !!! 0%nat) (free_fall_y (-5) 0.5 k) &&
  if (k <? 72)%nat then
    flake_active w 0 && (ground (state w) !!! 25%nat =? 240) &&
    Qltb (free_fall_y (-5) 0.5 k + 4) 240
  else
    negb (flake_active w 0) && (ground (state w) !!! 25%nat =? 236) &&
    Qle_bool 240 (free_fall_y (-5) 0.5 k + 4).

(** The particles in play: active flakes plus active pile particles. *)
Definition in_play (w : World) : nat :=
  (active_count (sn_act (snow w)) + active_count (pl_act (pile w)))%nat.

(** The globals as [start] relates them (lines 100-104). *)
Definition globals_ok (gl : Globals) : Prop :=
  CX gl = SCREEN_W gl / 2 /\ CY gl = SCREEN_H gl / 2 /\
  GROUND_CHUNKS gl = SCREEN_W gl / 4 + 1.

(** An active particle [(act, rx, ry, sv, e)] sits on the edge it names,
    within that edge's extent. *)
Definition on_edge (t : bool * Q * Q * Q * Z) : Prop :=
  let '(act, rx, ry, sv, e) := t in
  act = true ->
  (e = 0 /\ ry = L_TOP /\ (L_LEFT <= rx)%Q /\ (rx <= L_RIGHT)%Q) \/
  (e = 1 /\ ry = L_BOT /\ (L_LEFT <= rx)%Q /\ (rx <= L_RIGHT)%Q) \/
  (e = 2 /\ rx = L_LEFT /\ (L_TOP <= ry)%Q /\ (ry <= L_BOT)%Q) \/
  (e = 3 /\ rx = L_RIGHT /\ (L_TOP <= ry)%Q /\ (ry <= L_BOT)%Q).

Definition pile_on_logo (w : World) : Prop :=
  forall p, (p < MAX_PILE)%nat -> on_edge (particle_of w p).

(** A point of the outline of the logo rectangle. *)
Definition on_outline (p : Z * Z) : Prop :=
  ((snd p = -12 \/ snd p = 12) /\ -45 <= fst p <= 45) \/
  ((fst p = -45 \/ fst p = 45) /\ -12 <= snd p <= 12).

(** A point strictly inside the logo rectangle, two pixels and more
    from its outline. *)
Definition inside_logo (p : Z * Z) : Prop :=
  -39 <= fst p <= 38 /\ -6 <= snd p <= 6.

(** Columns that hold snow: their height is above the floor line. *)
Definition snowy_columns (gl : Globals) (g : list Z) : nat :=
  length (List.filter (fun i => g !!! i <? SCREEN_H gl)
            (seq 0 (Z.to_nat (GROUND_CHUNKS gl)))).

(** What the loop of [cache_line] keeps true of [x0], [y0] and [err], for
    the end point [(x1, y1)], the distances [dx] and [ady] and the step
    directions [sx] and [sy]: [a] and [b] are the steps still to go
    along each axis. *)
Record line_inv (x1 y1 dx ady sx sy x y err a b : Z) : Prop := mkLineInv {
  li_x : x = x1 - sx * a;
  li_y : y = y1 - sy * b;
  li_a : 0 <= a <= dx;
  li_b : 0 <= b <= ady;
  li_err : err = dx - ady + ady * a - dx * b;
  li_flat : ady <= dx -> - ady <= 2 * err;
  li_steep : dx <= ady -> 2 * err <= dx
}.

(** * Properties *)

(** ** Tactics *)

(** Reduce record projections only. *)
Ltac proj :=
  cbn [globals state snow pile
       SCREEN_W SCREEN_H CX CY GROUND_CHUNKS
       stage start_time a_idx rot ground tick
       sn_act sn_x sn_y sn_vx sn_vy sn_px sn_py
       pl_act pl_rx pl_ry pl_sv pl_edge fst snd negb andb orb] in *.

(** Lookups next to an update of another slot. *)
Ltac frame_ne := rewrite ?list_lookup_total_insert_ne by congruence.

(** ** Lists used as fixed-size arrays *)

Section Arrays.
Context {A : Type} `{Inhabited A}.

Lemma insert_same (l : list A) (i : nat) : <[i := l !!! i]> l = l.
Proof.
  destruct (l !! i) as [x|] eqn:E.
  - apply list_insert_id. rewrite E. f_equal. symmetry.
    by apply list_lookup_total_correct.
  - apply list_insert_ge. by apply lookup_ge_None.
Qed.

(** A loop over [range(a, a+n)] that rewrites slot [i] from its own
    content only. *)
Lemma fold_insert_lookup (f : A -> A) (n a : nat) (l : list A) (j : nat) :
  fold_left (fun l i => <[i := f (l !!! i)]> l) (seq a n) l !! j =
  if decide (a <= j < a + n)%nat then f <$> (l !! j) else l !! j.
Proof.
  revert a l. induction n as [|n IH]; intros a l; simpl.
  - case_decide; [lia | done].
  - rewrite IH. rewrite list_lookup_insert.
    repeat case_decide; try lia; try done.
    + destruct_and!. subst j. rewrite (list_lookup_lookup_total_lt l a) by done. done.
    + assert (j = a) as -> by lia.
      assert (l !! a = None) as -> by (apply lookup_ge_None; lia). done.
Qed.

Lemma fold_insert_length (f : A -> A) (n a : nat) (l : list A) :
  length (fold_left (fun l i => <[i := f (l !!! i)]> l) (seq a n) l) = length l.
Proof.
  revert a l. induction n as [|n IH]; intros a l; simpl; [done|].
  by rewrite IH, length_insert.
Qed.

End Arrays.

(** An invariant of every loop body is an invariant of the loop. *)
Lemma fold_left_inv {T B : Type} (P : T -> Prop) (f : T -> B -> T) (l : list B) :
  (forall s b, P s -> P (f s b)) -> forall s, P s -> P (fold_left f l s).
Proof. intros Hf. induction l as [|b l IH]; simpl; auto. Qed.

(** ** Comparisons *)

Lemma fadd_correct (a b : Q) : (a + b)%F == (a + b)%Q.
Proof. apply Qred_correct. Qed.

Lemma fsub_correct (a b : Q) : (a - b)%F == (a - b)%Q.
Proof. apply Qred_correct. Qed.

Lemma fmul_correct (a b : Q) : (a * b)%F == (a * b)%Q.
Proof. apply Qred_correct. Qed.

Lemma Qltb_true (a b : Q) : Qltb a b = true <-> (a < b)%Q.
Proof.
  unfold Qltb. rewrite negb_true_iff, <- not_true_iff_false, Qle_bool_iff.
  split; [apply Qnot_le_lt | apply Qlt_not_le].
Qed.

Lemma Qltb_false (a b : Q) : Qltb a b = false <-> (b <= a)%Q.
Proof. unfold Qltb. rewrite negb_false_iff. apply Qle_bool_iff. Qed.

Lemma Qle_bool_false (a b : Q) : Qle_bool a b = false <-> (b < a)%Q.
Proof.
  rewrite <- not_true_iff_false, Qle_bool_iff.
  split; [apply Qnot_le_lt | apply Qlt_not_le].
Qed.

(** ** Reset *)

Lemma clear_flags_lookup (n : nat) (l : list bool) (j : nat) :
  clear_flags n l !! j =
  if decide (j < n)%nat then (fun _ => false) <$> (l !! j) else l !! j.
Proof.
  unfold clear_flags.
  rewrite (fold_insert_lookup (fun _ => false) n 0 l j).
  repeat case_decide; try lia; done.
Qed.

Lemma clear_flags_length (n : nat) (l : list bool) :
  length (clear_flags n l) = length l.
Proof. apply (fold_insert_length (fun _ => false)). Qed.

Lemma clear_flags_idem (n : nat) (l : list bool) :
  clear_flags n (clear_flags n l) = clear_flags n l.
Proof.
  apply list_eq. intros j. rewrite !clear_flags_lookup.
  case_decide; [|done]. by destruct (l !! j).
Qed.

Lemma clear_flags_full (n : nat) (l : list bool) :
  length l = n -> clear_flags n l = replicate n false.
Proof.
  intros Hl. apply list_eq. intros j. rewrite clear_flags_lookup.
  case_decide.
  - rewrite lookup_replicate_2 by done.
    destruct (l !! j) eqn:E; [done|].
    apply lookup_ge_None in E. lia.
  - assert (l !! j = None) as -> by (apply lookup_ge_None; lia).
    symmetry. apply lookup_ge_None. rewrite length_replicate. lia.
Qed.

(** C9.  Calling [start] a second time right after a first call gives
    the state the first call gave: the same activity flags (indeed the
    same two pools), ground heights, angle index and tick counter, also
    the same globals, stage and rotation flag.  Only [start_time], which
    is read from the clock, may differ. *)
Theorem start_twice (vm : ViewManager) (o1 o2 : Oracle) (w : World) :
  let w1 := start vm o1 w in
  let w2 := start vm o2 w1 in
  sn_act (snow w2) = sn_act (snow w1) /\
  pl_act (pile w2) = pl_act (pile w1) /\
  snow w2 = snow w1 /\
  pile w2 = pile w1 /\
  ground (state w2) = ground (state w1) /\
  a_idx (state w2) = a_idx (state w1) /\
  tick (state w2) = tick (state w1) /\
  globals w2 = globals w1 /\
  stage (state w2) = stage (state w1) /\
  rot (state w2) = rot (state w1).
Proof.
  simpl. rewrite !clear_flags_idem. repeat split; reflexivity.
Qed.

(** ** Ground column of a flake *)

Lemma py_int_nonneg (x : Q) : (0 <= x)%Q -> py_int x = Qfloor x.
Proof.
  destruct x as [n d]. unfold Qle, py_int, Qfloor. simpl. intros Hn.
  apply Z.quot_div_nonneg; lia.
Qed.

Lemma py_int_inject (n : Z) : py_int (inject_Z n) = n.
Proof. unfold py_int. simpl. apply Z.quot_1_r. Qed.

Lemma Qfloor_quarter (x : Q) : Qfloor (x / 4) = Qfloor x / 4.
Proof.
  destruct x as [n d]. unfold Qdiv, Qmult, Qinv, Qfloor. simpl.
  rewrite Z.mul_1_r, Pos2Z.inj_mul. symmetry. apply Z.div_div; [discriminate | reflexivity].
Qed.

Lemma chunk_of_div (x : Q) : chunk_of x = py_int x / 4.
Proof. unfold chunk_of. by rewrite Z.shiftr_div_pow2. Qed.

(** C2, as the code has it.  The column is the floor of [int(x) / 4],
    where [int] truncates toward zero; for a flake at [x >= 0] that is
    the floor of [x / 4]. *)
Theorem chunk_of_floor (x : Q) :
  chunk_of x = Qfloor (inject_Z (py_int x) / 4) /\
  ((0 <= x)%Q -> chunk_of x = Qfloor (x / 4)).
Proof.
  split.
  - rewrite chunk_of_div, Qfloor_quarter, Qfloor_Z. reflexivity.
  - intros Hx. rewrite chunk_of_div, Qfloor_quarter, py_int_nonneg by done.
    reflexivity.
Qed.

Lemma chunk_of_floor_witness :
  (0 <= 101.5)%Q /\ chunk_of 101.5 = Qfloor (101.5 / 4).
Proof.
  split; [discriminate | apply (proj2 (chunk_of_floor 101.5)); discriminate].
Defined.

(** C2 fails left of the screen: a flake spawned at [x = 0] with the
    drift [-0.3] is at [x = -0.3] after one tick; the code puts it in
    column 0, the floor of [x / 4] is -1. *)
Lemma chunk_of_not_floor :
  chunk_of (0 + -0.3) = 0 /\ Qfloor ((0 + -0.3) / 4) = -1 /\
  chunk_of (0 + -0.3) <> Qfloor ((0 + -0.3) / 4).
Proof. repeat split. discriminate. Qed.

(** ** The ground test *)

Lemma try_land_true (n : Z) (g : list Z) (c : Z) (b : Q) :
  snd (try_land n g c b) = true <->
  0 <= c < n /\ (inject_Z (g !!! Z.to_nat c) <= b)%Q.
Proof.
  unfold try_land.
  destruct (0 <=? c) eqn:E1; destruct (c <? n) eqn:E2; simpl;
    try (split; [discriminate | lia]).
  destruct (Qle_bool _ b) eqn:E3; simpl.
  - apply Qle_bool_iff in E3. split; [intros _; split; [lia | done] | done].
  - apply Qle_bool_false in E3. split; [discriminate|].
    intros [_ Hle]. exfalso. revert E3. by apply Qle_not_lt.
Qed.

Lemma try_land_fst (n : Z) (g : list Z) (c : Z) (b : Q) :
  fst (try_land n g c b) =
  if snd (try_land n g c b)
  then <[Z.to_nat c := g !!! Z.to_nat c - 4]> g else g.
Proof.
  unfold try_land.
  destruct ((0 <=? c) && (c <? n)); [|done].
  by destruct (Qle_bool _ b).
Qed.

Lemma try_land_length (n : Z) (g : list Z) (c : Z) (b : Q) :
  length (fst (try_land n g c b)) = length g.
Proof. rewrite try_land_fst. destruct (snd _); [apply length_insert | done]. Qed.

(** ** One flake step, spelled out *)

Lemma snow_step_dormant (s c : Q) (w : World) (i : nat) :
  sn_act (snow w) !!! i = false -> snow_step s c w i = w.
Proof. intros Hi. unfold snow_step. by rewrite Hi. Qed.

Lemma snow_step_active (s c : Q) (w : World) (i : nat) :
  sn_act (snow w) !!! i = true ->
  snow_step s c w i =
  let st := state w in
  let sn := snow w in
  let on_ground := snd (ground_test w i) in
  let landed := on_ground || snd (logo_test s c w i) in
  mkWorld (globals w)
    (mkState (stage st) (start_time st) (a_idx st) (rot st)
       (fst (ground_test w i)) (tick st))
    (mkSnow
       (if landed || Qle_bool (inject_Z (SCREEN_H (globals w))) (next_y w i)
        then <[i := false]> (sn_act sn) else sn_act sn)
       (<[i := next_x w i]> (sn_x sn)) (<[i := next_y w i]> (sn_y sn))
       (sn_vx sn) (<[i := next_vy w i]> (sn_vy sn))
       (<[i := sn_x sn !!! i]> (sn_px sn)) (<[i := sn_y sn !!! i]> (sn_py sn)))
    (if on_ground then pile w else fst (logo_test s c w i)).
Proof.
  intros Hi. unfold snow_step. rewrite Hi. cbn [negb].
  unfold ground_test, logo_test, next_y, next_x, next_vy.
  destruct (try_land _ _ _ _) as [g' [|]]; cbn [fst snd orb].
  - reflexivity.
  - destruct (body_test _ _ _ _ _ _ _) as [pl' landed]. reflexivity.
Qed.

(** C5.  The ground test succeeds exactly when the column is inside
    [[0, chunkCount)] and the flake bottom has reached the column
    height; it then lowers that height by 4 and touches no other column;
    when it fails the ground is unchanged.  In the flake step a failed
    ground test (an out-of-range column included) leaves the ground as
    it was and hands the flake to the logo test, whose result alone
    decides the pile and, with the floor test, the flake. *)
Theorem try_land_spec (n : Z) (g : list Z) (col : Z) (bottom : Q) :
  Z.of_nat (length g) = n ->
  (snd (try_land n g col bottom) = true <->
     0 <= col < n /\ (inject_Z (g !!! Z.to_nat col) <= bottom)%Q) /\
  (snd (try_land n g col bottom) = true ->
     fst (try_land n g col bottom) !!! Z.to_nat col = g !!! Z.to_nat col - 4 /\
     length (fst (try_land n g col bottom)) = length g /\
     forall j, j <> Z.to_nat col ->
       fst (try_land n g col bottom) !!! j = g !!! j) /\
  (snd (try_land n g col bottom) = false ->
     fst (try_land n g col bottom) = g) /\
  (forall s c w i,
     sn_act (snow w) !!! i = true ->
     snd (ground_test w i) = false ->
     ground (state (snow_step s c w i)) = ground (state w) /\
     pile (snow_step s c w i) = fst (logo_test s c w i) /\
     sn_act (snow (snow_step s c w i)) =
       if snd (logo_test s c w i) ||
          Qle_bool (inject_Z (SCREEN_H (globals w))) (next_y w i)
       then <[i := false]> (sn_act (snow w)) else sn_act (snow w)).
Proof.
  intros Hlen. split; [apply try_land_true|].
  split; [|split].
  - intros Hok. pose proof (proj1 (try_land_true _ _ _ _) Hok) as [Hc _].
    rewrite try_land_fst, Hok. split; [|split].
    + apply list_lookup_total_insert_eq. lia.
    + apply length_insert.
    + intros j Hj. by apply list_lookup_total_insert_ne.
  - intros Hko. by rewrite try_land_fst, Hko.
  - intros s c w i Hact Hko.
    rewrite snow_step_active by done. cbv zeta. proj. rewrite Hko. proj.
    split; [|done].
    unfold ground_test in *. by rewrite try_land_fst, Hko.
Qed.

Lemma try_land_spec_witness :
  Z.of_nat (length [240; 236; 240]) = 3 /\
  snd (try_land 3 [240; 236; 240] 1 237%Q) = true /\
  fst (try_land 3 [240; 236; 240] 1 237%Q) !!! 1%nat = 232 /\
  fst (try_land 3 [240; 236; 240] 7 237%Q) = [240; 236; 240].
Proof.
  destruct (try_land_spec 3 [240; 236; 240] 1 237%Q eq_refl) as (H1 & H2 & _).
  destruct (try_land_spec 3 [240; 236; 240] 7 237%Q eq_refl) as (_ & _ & H3 & _).
  assert (snd (try_land 3 [240; 236; 240] 1 237%Q) = true) as Hok.
  { apply H1. split; [lia | discriminate]. }
  split; [reflexivity|]. split; [exact Hok|].
  split; [exact (proj1 (H2 Hok)) | apply H3; reflexivity].
Defined.

(** ** Pools *)

Lemma first_free_Some (n : nat) (act : list bool) (p : nat) :
  first_free n act = Some p -> (p < n)%nat /\ act !!! p = false.
Proof.
  unfold first_free. intros Hf. apply find_some in Hf as [Hin Hp].
  apply in_seq in Hin. apply negb_true_iff in Hp. split; [lia | done].
Qed.

Lemma first_free_None (n : nat) (act : list bool) :
  first_free n act = None -> forall q, (q < n)%nat -> act !!! q = true.
Proof.
  unfold first_free. intros Hf q Hq.
  apply negb_false_iff. apply (find_none _ _ Hf q). apply in_seq. lia.
Qed.

(** ** Nearest edge *)

Lemma py_min_cases (a b : Q) :
  (py_min a b = a /\ (a <= b)%Q) \/ (py_min a b = b /\ (b < a)%Q).
Proof.
  unfold py_min. destruct (Qltb b a) eqn:E.
  - right. split; [done | by apply Qltb_true].
  - left. split; [done | by apply Qltb_false].
Qed.

Lemma py_min4_le (a b c d : Q) :
  let m := py_min4 a b c d in
  (m <= a /\ m <= b /\ m <= c /\ m <= d)%Q /\
  (m = a \/ m = b \/ m = c \/ m = d).
Proof.
  unfold py_min4.
  destruct (py_min_cases a b) as [[-> H1]|[-> H1]];
  [destruct (py_min_cases a c) as [[-> H2]|[-> H2]]
  |destruct (py_min_cases b c) as [[-> H2]|[-> H2]]];
  match goal with |- context [py_min ?u d] =>
    destruct (py_min_cases u d) as [[-> H3]|[-> H3]] end;
  simpl; (split; [repeat split; lra | tauto]).
Qed.

Lemma Qeq_bool_false (a b : Q) : Qeq_bool a b = false -> ~ a == b.
Proof. intros E Hab. apply Qeq_bool_iff in Hab. congruence. Qed.

(** The edge chosen by lines 228-241 is the first one, in the order
    top, bottom, left, right, at minimal distance. *)
Lemma snap_first_min (lx ly : Q) :
  let e := snd (snap lx ly) in
  0 <= e <= 3 /\
  (forall e', 0 <= e' <= 3 -> (edge_dist lx ly e <= edge_dist lx ly e')%Q) /\
  (forall e', 0 <= e' < e -> (edge_dist lx ly e < edge_dist lx ly e')%Q) /\
  fst (snap lx ly) =
    (if e =? 0 then (lx, L_TOP) else if e =? 1 then (lx, L_BOT)
     else if e =? 2 then (L_LEFT, ly) else (L_RIGHT, ly)).
Proof.
  cbv zeta. unfold snap.
  set (dt := Qabs (ly - L_TOP)%F). set (db := Qabs (ly - L_BOT)%F).
  set (dl := Qabs (lx - L_LEFT)%F). set (dr := Qabs (lx - L_RIGHT)%F).
  assert (Hd0 : edge_dist lx ly 0 = dt) by reflexivity.
  assert (Hd1 : edge_dist lx ly 1 = db) by reflexivity.
  assert (Hd2 : edge_dist lx ly 2 = dl) by reflexivity.
  assert (Hd3 : edge_dist lx ly 3 = dr) by reflexivity.
  destruct (py_min4_le dt db dl dr) as [(Ht & Hb & Hl & Hr) Hm].
  set (m := py_min4 dt db dl dr) in *.
  assert (Hmin : (m == dt \/ m == db \/ m == dl \/ m == dr)%Q).
  { destruct Hm as [Hm|[Hm|[Hm|Hm]]]; rewrite Hm; auto using Qeq_refl. }
  clearbody m dt db dl dr. clear Hm.
  destruct (Qeq_bool m dt) eqn:E0; [apply Qeq_bool_iff in E0|
    apply Qeq_bool_false in E0;
    destruct (Qeq_bool m db) eqn:E1; [apply Qeq_bool_iff in E1|
      apply Qeq_bool_false in E1;
      destruct (Qeq_bool m dl) eqn:E2; [apply Qeq_bool_iff in E2|
        apply Qeq_bool_false in E2]]];
    cbn [fst snd]; (split; [lia|]); (split; [|split; [|reflexivity]]);
    intros e' He';
    (assert (e' = 0 \/ e' = 1 \/ e' = 2 \/ e' = 3) as [->|[->|[->| ->]]] by lia);
    try lia; rewrite ?Hd0, ?Hd1, ?Hd2, ?Hd3;
    try lra; (destruct Hmin as [?|[?|[?|?]]]; try tauto; lra).
Qed.

Lemma pile_alloc_Some (lx ly : Q) (pl : Pile) (p : nat) :
  first_free MAX_PILE (pl_act pl) = Some p ->
  pile_wf pl ->
  let pl' := pile_alloc lx ly pl in
  pl_act pl' !!! p = true /\ pl_sv pl' !!! p = 0%Q /\
  (pl_rx pl' !!! p, pl_ry pl' !!! p) = fst (snap lx ly) /\
  pl_edge pl' !!! p = snd (snap lx ly).
Proof.
  intros Hf (Ha & Hx & Hy & Hv & He). cbv zeta. unfold pile_alloc. rewrite Hf.
  apply first_free_Some in Hf as [Hp _].
  destruct (snap lx ly) as [[rx ry] e]. proj.
  rewrite !list_lookup_total_insert_eq by lia. done.
Qed.

Lemma pile_alloc_None (lx ly : Q) (pl : Pile) :
  first_free MAX_PILE (pl_act pl) = None -> pile_alloc lx ly pl = pl.
Proof. intros Hf. unfold pile_alloc. by rewrite Hf. Qed.

(** C4.  A flake whose local position is inside the logo rectangle
    (and for which a pile slot [p] is free) becomes a pile particle with
    slide velocity 0 on the edge at minimal distance, the first such
    edge in the order top, bottom, left, right; the coordinate across
    that edge is set to the edge's boundary and the other one is kept.
    A flake as near to the top as to the left edge is never put on the
    left edge, and goes to the top edge when no edge is nearer. *)
Theorem nearest_edge_first_min
    (s c : Q) (cx cy : Z) (x y : Q) (pl : Pile) (p : nat) :
  let lx := fst (to_local s c (x - inject_Z cx)%F (y - inject_Z cy)%F) in
  let ly := snd (to_local s c (x - inject_Z cx)%F (y - inject_Z cy)%F) in
  let pl' := fst (body_test s c cx cy x y pl) in
  let e := pl_edge pl' !!! p in
  in_box lx ly = true ->
  first_free MAX_PILE (pl_act pl) = Some p ->
  pile_wf pl ->
  snd (body_test s c cx cy x y pl) = true /\
  pl_act pl' !!! p = true /\
  pl_sv pl' !!! p = 0%Q /\
  0 <= e <= 3 /\
  (forall e', 0 <= e' <= 3 -> (edge_dist lx ly e <= edge_dist lx ly e')%Q) /\
  (forall e', 0 <= e' < e -> (edge_dist lx ly e < edge_dist lx ly e')%Q) /\
  (pl_rx pl' !!! p, pl_ry pl' !!! p) =
    (if e =? 0 then (lx, L_TOP) else if e =? 1 then (lx, L_BOT)
     else if e =? 2 then (L_LEFT, ly) else (L_RIGHT, ly)) /\
  (edge_dist lx ly 0 == edge_dist lx ly 2 -> e <> 2) /\
  ((forall e', 0 <= e' <= 3 -> (edge_dist lx ly 0 <= edge_dist lx ly e')%Q) ->
   e = 0).
Proof.
  cbv zeta. intros Hbox Hfree Hwf. unfold body_test.
  destruct (to_local s c (x - inject_Z cx)%F (y - inject_Z cy)%F) as [lx ly] eqn:El.
  cbn [fst snd] in Hbox |- *. rewrite Hbox. cbn [fst snd].
  destruct (pile_alloc_Some lx ly pl p Hfree Hwf) as (Ha & Hv & Hxy & He).
  destruct (snap_first_min lx ly) as (Hr & Hmin & Hfirst & Hpos).
  rewrite Ha, Hv, Hxy, He.
  repeat (split; [done|]). split.
  - intros Htie Hl. specialize (Hfirst 0). rewrite Hl in Hfirst.
    assert (edge_dist lx ly 2 < edge_dist lx ly 0)%Q by (apply Hfirst; lia).
    lra.
  - intros Htop.
    destruct (Z.eq_dec (snd (snap lx ly)) 0) as [|Hne]; [done|].
    assert (edge_dist lx ly (snd (snap lx ly)) < edge_dist lx ly 0)%Q
      by (apply Hfirst; lia).
    specialize (Htop (snd (snap lx ly)) Hr). lra.
Qed.

Lemma nearest_edge_first_min_witness :
  let pl := pile import_world in
  let pl' := fst (body_test 0 1 160 120 120 113 pl) in
  to_local 0 1 (120%Q - inject_Z 160)%F (113%Q - inject_Z 120)%F = ((-40)%Q, (-7)%Q) /\
  edge_dist (-40) (-7) 0 == edge_dist (-40) (-7) 2 /\
  pl_edge pl' !!! 0%nat = 0 /\
  pl_sv pl' !!! 0%nat = 0%Q.
Proof.
  cbv zeta.
  assert (pile_wf (pile import_world)) as Hwf by (repeat split; reflexivity).
  destruct (nearest_edge_first_min 0 1 160 120 120 113 (pile import_world) 0
              eq_refl eq_refl Hwf)
    as (_ & _ & Hsv & _ & _ & _ & _ & _ & Htop).
  split; [reflexivity|]. split; [reflexivity|]. split; [|exact Hsv].
  apply Htop. intros e' He'.
  assert (e' = 0 \/ e' = 1 \/ e' = 2 \/ e' = 3) as [->|[->|[->| ->]]] by lia;
    discriminate.
Defined.

(** ** What every step preserves *)

Ltac len :=
  rewrite ?length_insert, ?clear_flags_length, ?length_replicate;
  try assumption; try reflexivity.

Lemma pile_alloc_wf (lx ly : Q) (pl : Pile) :
  pile_wf pl -> pile_wf (pile_alloc lx ly pl).
Proof.
  intros (Ha & Hx & Hy & Hv & He). unfold pile_alloc.
  destruct (first_free _ _); [|done].
  destruct (snap lx ly) as [[rx ry] e]. repeat split; proj; len.
Qed.

Lemma body_test_wf (s c : Q) (cx cy : Z) (x y : Q) (pl : Pile) :
  pile_wf pl -> pile_wf (fst (body_test s c cx cy x y pl)).
Proof.
  intros Hwf. unfold body_test. destruct (to_local _ _ _ _) as [lx ly].
  destruct (in_box lx ly); proj; [by apply pile_alloc_wf | done].
Qed.

Lemma snow_alloc_wf (ax ay vx vy : Q) (sn : Snow) :
  snow_wf sn -> snow_wf (snow_alloc ax ay vx vy sn).
Proof.
  intros (Ha & Hx & Hy & Hvx & Hvy & Hpx & Hpy). unfold snow_alloc.
  destruct (first_free _ _); [|done]. repeat split; proj; len.
Qed.

Lemma fall_off_wf (s c : Q) (cx cy e : Z) (sv rx ry : Q) (sn : Snow) :
  snow_wf sn -> snow_wf (fall_off s c cx cy e sv rx ry sn).
Proof.
  intros Hwf. unfold fall_off. destruct (to_world _ _ _ _) as [wx wy].
  destruct (e <? 2); by apply snow_alloc_wf.
Qed.

Lemma try_land_floor (n h : Z) (g : list Z) (col : Z) (bottom : Q) :
  Forall (fun v => v <= h) g ->
  Forall (fun v => v <= h) (fst (try_land n g col bottom)).
Proof.
  intros Hg. rewrite try_land_fst. destruct (snd _); [|done].
  destruct (decide (Z.to_nat col < length g)%nat) as [Hlt|Hge].
  - apply Forall_insert; [done|].
    pose proof (list_lookup_lookup_total_lt g _ Hlt) as Hl.
    pose proof (proj1 (Forall_lookup _ g) Hg _ _ Hl) as Hle. cbv beta in Hle. lia.
  - rewrite list_insert_ge by lia. done.
Qed.

Lemma snow_step_inv (s c : Q) (w : World) (i : nat) :
  inv w -> inv (snow_step s c w i).
Proof.
  intros [Hsn Hpl Hch Hfl Han].
  destruct (sn_act (snow w) !!! i) eqn:Hi;
    [|by rewrite snow_step_dormant].
  rewrite snow_step_active by done. cbv zeta.
  destruct Hsn as (Ha & Hx & Hy & Hvx & Hvy & Hpx & Hpy).
  split; proj.
  - repeat split; proj; len.
    destruct (_ || _); len.
  - destruct (snd (ground_test w i)); [exact Hpl|].
    unfold logo_test. apply body_test_wf. exact Hpl.
  - unfold ground_test. by rewrite try_land_length.
  - by apply try_land_floor.
  - done.
Qed.

Lemma pile_step_inv (s c gx gy : Q) (w : World) (p : nat) :
  inv w -> inv (pile_step s c gx gy w p).
Proof.
  intros [Hsn Hpl Hch Hfl Han]. unfold pile_step.
  destruct (pl_act (pile w) !!! p); proj; [|done].
  destruct (slide _ _ _ _ _ _) as [[[fall sv] rx] ry].
  destruct Hpl as (Ha & Hx & Hy & Hv & He).
  split; proj; try done.
  - destruct fall; [by apply fall_off_wf | done].
  - repeat split; proj; len. destruct fall; len.
Qed.

Lemma snow_pass_inv (s c : Q) (w : World) : inv w -> inv (snow_pass s c w).
Proof. apply fold_left_inv. intros. by apply snow_step_inv. Qed.

Lemma pile_pass_inv (s c : Q) (w : World) : inv w -> inv (pile_pass s c w).
Proof. apply fold_left_inv. intros. by apply pile_step_inv. Qed.

Lemma melt_one_floor (h : Z) (g : list Z) (i : nat) :
  Forall (fun v => v <= h) g -> Forall (fun v => v <= h) (melt_one h g i).
Proof.
  intros Hg. unfold melt_one. destruct (g !!! i <? h) eqn:E; [|done].
  apply Forall_insert; [done | lia].
Qed.

Lemma melt_one_length (h : Z) (g : list Z) (i : nat) :
  length (melt_one h g i) = length g.
Proof. unfold melt_one. destruct (_ <? _); len. Qed.

Lemma melt_floor (n h : Z) (g : list Z) :
  Forall (fun v => v <= h) g -> Forall (fun v => v <= h) (melt n h g).
Proof. apply fold_left_inv. intros. by apply melt_one_floor. Qed.

Lemma melt_length (n h : Z) (g : list Z) : length (melt n h g) = length g.
Proof.
  unfold melt.
  apply (fold_left_inv (fun l => length l = length g)); [|done].
  intros l b Hl. by rewrite melt_one_length.
Qed.

Lemma import_world_wf :
  snow_wf (snow import_world) /\ pile_wf (pile import_world).
Proof. split; repeat split; reflexivity. Qed.

Lemma start_inv (vm : ViewManager) (o : Oracle) (w : World) :
  snow_wf (snow w) -> pile_wf (pile w) -> inv (start vm o w).
Proof.
  intros (Ha & Hx & Hy & Hvx & Hvy & Hpx & Hpy) (Hb & Hrx & Hry & Hsv & He).
  unfold start. split; proj.
  - repeat split; proj; len.
  - repeat split; proj; len.
  - len.
  - by apply Forall_replicate.
  - unfold ROT_STEPS. lia.
Qed.

Lemma fold_left_ext {T B : Type} (f g : T -> B -> T) (l : list B) :
  (forall s b, f s b = g s b) -> forall s, fold_left f l s = fold_left g l s.
Proof.
  intros Hfg. induction l as [|b l IH]; intros s; simpl; [done|].
  by rewrite Hfg, IH.
Qed.

Lemma melt_lookup (n h : Z) (g : list Z) (j : nat) :
  melt n h g !! j =
  if decide (j < Z.to_nat n)%nat then melted h <$> (g !! j) else g !! j.
Proof.
  unfold melt.
  rewrite (fold_left_ext _ (fun l i => <[i := melted h (l !!! i)]> l)).
  - rewrite fold_insert_lookup. repeat case_decide; try lia; done.
  - intros l i. unfold melt_one, melted.
    destruct (l !!! i <? h); [done | by rewrite insert_same].
Qed.

Lemma melt_lookup_total (n h : Z) (g : list Z) (j : nat) :
  (j < Z.to_nat n)%nat -> (j < length g)%nat ->
  melt n h g !!! j = melted h (g !!! j).
Proof.
  intros Hn Hg. apply list_lookup_total_correct.
  rewrite melt_lookup. case_decide; [|lia].
  by rewrite (list_lookup_lookup_total_lt g j).
Qed.

Section RunProperties.

Variables BUTTON_BACK BUTTON_ESCAPE : Z.
Variables SIN_LUT COS_LUT : list Q.

Local Abbreviation runT := (run BUTTON_BACK BUTTON_ESCAPE SIN_LUT COS_LUT).
Local Abbreviation simT := (simulate SIN_LUT COS_LUT).
Local Abbreviation reachT := (reachable BUTTON_BACK BUTTON_ESCAPE SIN_LUT COS_LUT).

Lemma spawn_wf (o : Oracle) (sn : Snow) : snow_wf sn -> snow_wf (spawn o sn).
Proof.
  intros (Ha & Hx & Hy & Hvx & Hvy & Hpx & Hpy). unfold spawn.
  destruct (Qltb _ _); [|done].
  destruct (first_free _ _); [|done]. repeat split; proj; len.
Qed.

Lemma pre_pass_inv (o : Oracle) (w : World) :
  inv w -> inv (pre_pass o (a_idx (state w)) w).
Proof.
  intros [Hsn Hpl Hch Hfl Han]. unfold pre_pass. split; proj.
  - by apply spawn_wf.
  - done.
  - destruct (_ =? 0); [by rewrite melt_length | done].
  - destruct (_ =? 0); [by apply melt_floor | done].
  - destruct (rot (state w)); [|done].
    apply Z.mod_pos_bound. reflexivity.
Qed.

Lemma passes_inv (s c : Q) (w : World) : inv w -> inv (passes s c w).
Proof. intros Hw. unfold passes. by apply pile_pass_inv, snow_pass_inv. Qed.

Lemma simulate_inv (o : Oracle) (w : World) : inv w -> inv (simT o w).
Proof.
  intros Hw. unfold simulate.
  destruct (stage (state w) =? 1); [|done].
  by apply passes_inv, pre_pass_inv.
Qed.

Lemma set_rot_inv (b : bool) (w : World) : inv w -> inv (set_rot b w).
Proof. intros [? ? ? ? ?]. by split. Qed.

Lemma set_stage_inv (n : Z) (w : World) : inv w -> inv (set_stage n w).
Proof. intros [? ? ? ? ?]. by split. Qed.

Lemma run_inv (vm : ViewManager) (o : Oracle) (w : World) :
  inv w -> inv (runT vm o w).
Proof.
  intros Hw. unfold run.
  destruct (_ || _); [done|].
  set (w1 := if _ && _ then _ else w).
  assert (inv w1) as Hw1.
  { subst w1. destruct (_ && _); [by apply set_rot_inv | done]. }
  clearbody w1.
  destruct (button vm =? BUTTON_R).
  - destruct Hw1. by apply start_inv.
  - apply simulate_inv. destruct (_ && _); [by apply set_stage_inv | done].
Qed.

(** The reset key is a call of [start]. *)
Lemma run_reset (vm : ViewManager) (o : Oracle) (w : World) :
  (button vm =? BUTTON_BACK) || (button vm =? BUTTON_ESCAPE) = false ->
  (button vm =? BUTTON_R) = true ->
  runT vm o w = start vm o w.
Proof.
  intros Hesc Hr. unfold run. rewrite Hesc, Hr.
  destruct (_ && _); reflexivity.
Qed.

Lemma reachable_inv (w : World) : reachT w -> inv w.
Proof.
  induction 1 as [vm o | vm o w Hr IH].
  - apply start_inv; apply import_world_wf.
  - by apply run_inv.
Qed.

Lemma reachable_run_seq (vm : ViewManager) (os : list Oracle) (w : World) :
  reachT w ->
  reachT (run_seq BUTTON_BACK BUTTON_ESCAPE SIN_LUT COS_LUT vm os w).
Proof.
  unfold run_seq. apply fold_left_inv. intros. by apply reach_run.
Qed.

(** C1, as the code has it.  In every reachable state no ground column
    is above the floor line: each height is at most [SCREEN_H].  Landing
    changes one column only, lowers it by 4, and only when the flake
    bottom has reached it; melting raises a column by 1 and only when it
    is strictly below [SCREEN_H].  (Nothing bounds a height from below.) *)
Theorem ground_height_upper_bound :
  (forall w, reachT w ->
     Forall (fun h => h <= SCREEN_H (globals w)) (ground (state w))) /\
  (forall n g col bottom j,
     fst (try_land n g col bottom) !!! j <> g !!! j ->
     j = Z.to_nat col /\ (inject_Z (g !!! j) <= bottom)%Q /\
     fst (try_land n g col bottom) !!! j = g !!! j - 4) /\
  (forall n h g j,
     melt n h g !!! j <> g !!! j ->
     g !!! j < h /\ melt n h g !!! j = g !!! j + 1).
Proof.
  split; [|split].
  - intros w Hw. by destruct (reachable_inv w Hw).
  - intros n g col bottom j. rewrite try_land_fst.
    destruct (snd (try_land n g col bottom)) eqn:Hok; [|done].
    apply try_land_true in Hok as [Hc Hle].
    rewrite list_lookup_total_insert. case_decide as Hj; [|done].
    destruct Hj as [<- _]. done.
  - intros n h g j. rewrite !list_lookup_total_alt, melt_lookup.
    case_decide; [|done]. destruct (g !! j) as [v|]; simpl; [|done].
    unfold melted. destruct (v <? h) eqn:E; [lia | done].
Qed.

(** ** Pool exhaustion *)

Lemma body_test_full (s c : Q) (cx cy : Z) (x y : Q) (pl : Pile) :
  first_free MAX_PILE (pl_act pl) = None ->
  fst (body_test s c cx cy x y pl) = pl.
Proof.
  intros Hf. unfold body_test. destruct (to_local _ _ _ _) as [lx ly].
  destruct (in_box lx ly); proj; [by apply pile_alloc_None | done].
Qed.

Lemma fall_off_full (s c : Q) (cx cy e : Z) (sv rx ry : Q) (sn : Snow) :
  first_free MAX_SNOW (sn_act sn) = None ->
  fall_off s c cx cy e sv rx ry sn = sn.
Proof.
  intros Hf. unfold fall_off. destruct (to_world _ _ _ _) as [wx wy].
  destruct (e <? 2); unfold snow_alloc; by rewrite Hf.
Qed.

Lemma active_count_le (act : list bool) : (active_count act <= length act)%nat.
Proof. apply length_filter. Qed.

(** C3.  When a flake hits the logo and no pile slot is free, the flake
    is deactivated and the pile pool is left exactly as it was; when a
    pile particle falls off and no flake slot is free, the particle is
    deactivated and the snow pool is left exactly as it was.  In every
    reachable state at most [MAX_SNOW] flakes and at most [MAX_PILE]
    pile particles are active. *)
Theorem pool_exhaustion :
  (forall s c w i,
     (i < length (sn_act (snow w)))%nat ->
     sn_act (snow w) !!! i = true ->
     snd (ground_test w i) = false ->
     snd (logo_test s c w i) = true ->
     first_free MAX_PILE (pl_act (pile w)) = None ->
     sn_act (snow (snow_step s c w i)) !!! i = false /\
     pile (snow_step s c w i) = pile w /\
     ground (state (snow_step s c w i)) = ground (state w)) /\
  (forall s c gx gy w p,
     (p < length (pl_act (pile w)))%nat ->
     pl_act (pile w) !!! p = true ->
     falls gx gy w p = true ->
     first_free MAX_SNOW (sn_act (snow w)) = None ->
     pl_act (pile (pile_step s c gx gy w p)) !!! p = false /\
     snow (pile_step s c gx gy w p) = snow w) /\
  (forall w, reachT w ->
     (active_count (sn_act (snow w)) <= MAX_SNOW)%nat /\
     (active_count (pl_act (pile w)) <= MAX_PILE)%nat).
Proof.
  split; [|split].
  - intros s c w i Hi Hact Hg Hl Hfull.
    rewrite snow_step_active by done. cbv zeta. proj.
    rewrite Hg, Hl. proj.
    split; [by apply list_lookup_total_insert_eq|].
    split; [unfold logo_test; by apply body_test_full|].
    unfold ground_test in *. by rewrite try_land_fst, Hg.
  - intros s c gx gy w p Hp Hact Hfall Hfull.
    unfold pile_step. rewrite Hact. proj.
    unfold falls in Hfall.
    destruct (slide _ _ _ _ _ _) as [[[fall sv] rx] ry].
    proj. subst fall.
    split; [by apply list_lookup_total_insert_eq|].
    by apply fall_off_full.
  - intros w Hw. destruct (reachable_inv w Hw) as [Hsn Hpl _ _ _].
    destruct Hsn as (Ha & _). destruct Hpl as (Hb & _).
    pose proof (active_count_le (sn_act (snow w))).
    pose proof (active_count_le (pl_act (pile w))). lia.
Qed.

(** ** Rotation *)

Lemma snow_step_a_idx (s c : Q) (w : World) (i : nat) :
  a_idx (state (snow_step s c w i)) = a_idx (state w).
Proof.
  destruct (sn_act (snow w) !!! i) eqn:Hi;
    [|by rewrite snow_step_dormant].
  by rewrite snow_step_active.
Qed.

Lemma pile_step_a_idx (s c gx gy : Q) (w : World) (p : nat) :
  a_idx (state (pile_step s c gx gy w p)) = a_idx (state w).
Proof.
  unfold pile_step. destruct (pl_act (pile w) !!! p); proj; [|done].
  by destruct (slide _ _ _ _ _ _) as [[[fall sv] rx] ry].
Qed.

Lemma passes_a_idx (s c : Q) (w : World) :
  a_idx (state (passes s c w)) = a_idx (state w).
Proof.
  unfold passes, pile_pass, snow_pass.
  set (a := a_idx (state w)).
  apply (fold_left_inv (fun w' => a_idx (state w') = a)).
  { intros w' p Hw'. by rewrite pile_step_a_idx. }
  apply (fold_left_inv (fun w' => a_idx (state w') = a)); [|done].
  intros w' i Hw'. by rewrite snow_step_a_idx.
Qed.

Lemma simulate_active (o : Oracle) (w : World) :
  stage (state w) = 1 ->
  simT o w =
  passes (SIN_LUT !!! Z.to_nat (a_idx (state w)))
         (COS_LUT !!! Z.to_nat (a_idx (state w)))
         (pre_pass o (a_idx (state w)) w).
Proof.
  intros Hst. unfold simulate.
  destruct (stage (state w) =? 1) eqn:E; [reflexivity | lia].
Qed.

Lemma run_active (vm : ViewManager) (o : Oracle) (w : World) :
  (button vm =? BUTTON_BACK) || (button vm =? BUTTON_ESCAPE) = false ->
  (button vm =? BUTTON_G) = false ->
  (button vm =? BUTTON_R) = false ->
  stage (state w) = 1 ->
  runT vm o w = simT o w.
Proof.
  intros Hesc Hg Hr Hst. unfold run.
  rewrite Hesc, Hg, Hr. cbn [andb].
  destruct (stage (state w) =? 0) eqn:E; [lia | reflexivity].
Qed.

Lemma pre_pass_rot (o : Oracle) (w : World) :
  rot (state w) = true ->
  let a := a_idx (state w) in
  pre_pass o a w =
    set_rot true
      (set_a_idx ((a + 1) mod ROT_STEPS) (pre_pass o a (set_rot false w))) /\
  a_idx (state (pre_pass o a w)) = (a + 1) mod ROT_STEPS.
Proof.
  intros Hrot. cbv zeta. unfold pre_pass, set_rot, set_a_idx.
  cbn [globals state snow pile stage start_time a_idx rot ground tick].
  rewrite Hrot. split; reflexivity.
Qed.

(** C10.  In an active tick with rotation on, the whole tick is the
    collision pass and the edge-slide pass runT with the sine and cosine
    found at the angle index the tick started with; the advance only
    replaces the stored index, which is one step further (modulo
    [ROT_STEPS]) when the tick ends, and leaves everything else the
    passes start from as it is without rotation. *)
Theorem rotation_uses_cached_angle
    (vm : ViewManager) (o : Oracle) (w : World) :
  (button vm =? BUTTON_BACK) || (button vm =? BUTTON_ESCAPE) = false ->
  (button vm =? BUTTON_G) = false ->
  (button vm =? BUTTON_R) = false ->
  stage (state w) = 1 ->
  rot (state w) = true ->
  let a := a_idx (state w) in
  let s_ang := SIN_LUT !!! Z.to_nat a in
  let c_ang := COS_LUT !!! Z.to_nat a in
  runT vm o w =
    pile_pass s_ang c_ang (snow_pass s_ang c_ang (pre_pass o a w)) /\
  pre_pass o a w =
    set_rot true
      (set_a_idx ((a + 1) mod ROT_STEPS) (pre_pass o a (set_rot false w))) /\
  a_idx (state (pre_pass o a (set_rot false w))) = a /\
  a_idx (state (runT vm o w)) = (a + 1) mod ROT_STEPS.
Proof.
  intros Hesc Hg Hr Hst Hrot. cbv zeta.
  destruct (pre_pass_rot o w Hrot) as [Hpre Hidx].
  rewrite (run_active vm o w Hesc Hg Hr Hst), (simulate_active o w Hst).
  split; [reflexivity|]. split; [exact Hpre|]. split; [reflexivity|].
  rewrite passes_a_idx. exact Hidx.
Qed.

End RunProperties.

(** ** One slot through a tick *)


Lemma snow_alloc_frame (ax ay vx vy : Q) (sn : Snow) (i : nat) :
  sn_act sn !!! i = true ->
  let sn' := snow_alloc ax ay vx vy sn in
  (sn_act sn' !!! i, sn_x sn' !!! i, sn_y sn' !!! i,
   sn_vx sn' !!! i, sn_vy sn' !!! i) =
  (sn_act sn !!! i, sn_x sn !!! i, sn_y sn !!! i,
   sn_vx sn !!! i, sn_vy sn !!! i).
Proof.
  intros Hi. cbv zeta. unfold snow_alloc.
  destruct (first_free _ _) as [f|] eqn:Hf; [|done].
  apply first_free_Some in Hf as [_ Hf].
  assert (f <> i) by congruence. proj. by frame_ne.
Qed.

Lemma pile_alloc_frame (lx ly : Q) (pl : Pile) (p : nat) :
  pl_act pl !!! p = true ->
  let pl' := pile_alloc lx ly pl in
  (pl_act pl' !!! p, pl_rx pl' !!! p, pl_ry pl' !!! p,
   pl_sv pl' !!! p, pl_edge pl' !!! p) =
  (pl_act pl !!! p, pl_rx pl !!! p, pl_ry pl !!! p,
   pl_sv pl !!! p, pl_edge pl !!! p).
Proof.
  intros Hp. cbv zeta. unfold pile_alloc.
  destruct (first_free _ _) as [f|] eqn:Hf; [|done].
  apply first_free_Some in Hf as [_ Hf].
  assert (f <> p) by congruence.
  destruct (snap lx ly) as [[rx ry] e]. proj. by frame_ne.
Qed.

(** A flake step leaves the other flakes alone. *)
Lemma snow_step_other_flake (s c : Q) (w : World) (j i : nat) :
  j <> i -> flake_of (snow_step s c w j) i = flake_of w i.
Proof.
  intros Hne.
  destruct (sn_act (snow w) !!! j) eqn:Hj; [|by rewrite snow_step_dormant].
  rewrite snow_step_active by done. cbv zeta. unfold flake_of. proj.
  frame_ne. destruct (_ || _); by frame_ne.
Qed.

(** A flake step leaves the active pile particles alone. *)
Lemma snow_step_particle (s c : Q) (w : World) (j p : nat) :
  pl_act (pile w) !!! p = true ->
  particle_of (snow_step s c w j) p = particle_of w p.
Proof.
  intros Hp.
  destruct (sn_act (snow w) !!! j) eqn:Hj; [|by rewrite snow_step_dormant].
  rewrite snow_step_active by done. cbv zeta. unfold particle_of. proj.
  destruct (snd (ground_test w j)); [done|].
  unfold logo_test, body_test. destruct (to_local _ _ _ _) as [lx ly].
  destruct (in_box lx ly); proj; [|done].
  by apply pile_alloc_frame.
Qed.

(** A pile step leaves the other pile particles alone. *)
Lemma pile_step_other_particle (s c gx gy : Q) (w : World) (q p : nat) :
  q <> p -> particle_of (pile_step s c gx gy w q) p = particle_of w p.
Proof.
  intros Hne. unfold pile_step.
  destruct (pl_act (pile w) !!! q); proj; [|done].
  destruct (slide _ _ _ _ _ _) as [[[fall sv] rx] ry].
  unfold particle_of. proj. frame_ne. destruct fall; by frame_ne.
Qed.

(** A pile step leaves the active flakes alone. *)
Lemma pile_step_flake (s c gx gy : Q) (w : World) (q i : nat) :
  sn_act (snow w) !!! i = true ->
  flake_of (pile_step s c gx gy w q) i = flake_of w i.
Proof.
  intros Hi. unfold pile_step.
  destruct (pl_act (pile w) !!! q); proj; [|done].
  destruct (slide _ _ _ _ _ _) as [[[fall sv] rx] ry].
  unfold flake_of. proj. destruct fall; [|done].
  unfold fall_off. destruct (to_world _ _ _ _) as [wx wy].
  destruct (_ <? 2); by apply snow_alloc_frame.
Qed.

(** Loops over [range(n)] and the one iteration that owns a slot. *)
Lemma seq_split (n i : nat) :
  (i < n)%nat -> seq 0 n = seq 0 i ++ i :: seq (S i) (n - S i).
Proof.
  intros Hi. replace n with (i + S (n - S i))%nat at 1 by lia.
  by rewrite seq_app.
Qed.

Lemma fold_left_frame {T B X : Type} (f : T -> B -> T) (get : T -> X)
    (P : B -> Prop) (l : list B) :
  (forall w b, P b -> get (f w b) = get w) ->
  Forall P l -> forall w, get (fold_left f l w) = get w.
Proof.
  intros Hf Hl. induction Hl as [|b l Hb Hl IH]; intros w; simpl; [done|].
  by rewrite IH, Hf.
Qed.

Lemma Forall_seq_ne (a n i : nat) :
  (i < a \/ a + n <= i)%nat -> Forall (fun j => j <> i) (seq a n).
Proof. intros Hi. apply Forall_forall. intros j Hj%elem_of_seq. lia. Qed.

Lemma next_eq (w1 w2 : World) (i : nat) :
  flake_of w1 i = flake_of w2 i ->
  next_x w1 i = next_x w2 i /\ next_y w1 i = next_y w2 i /\
  next_vy w1 i = next_vy w2 i /\
  sn_vx (snow w1) !!! i = sn_vx (snow w2) !!! i /\
  sn_act (snow w1) !!! i = sn_act (snow w2) !!! i.
Proof.
  unfold flake_of, next_x, next_y, next_vy. intros [= Ha Hx Hy Hvx Hvy].
  by rewrite Ha, Hx, Hy, Hvx, Hvy.
Qed.

(** The step of an active flake stores the integrated position and
    velocity in its own slot, whatever happens to the flake next. *)
Lemma snow_step_self (s c : Q) (w : World) (i : nat) :
  snow_wf (snow w) -> (i < MAX_SNOW)%nat ->
  sn_act (snow w) !!! i = true ->
  let sn' := snow (snow_step s c w i) in
  sn_x sn' !!! i = next_x w i /\ sn_y sn' !!! i = next_y w i /\
  sn_vy sn' !!! i = next_vy w i /\ sn_vx sn' !!! i = sn_vx (snow w) !!! i.
Proof.
  intros (Ha & Hx & Hy & Hvx & Hvy & _) Hi Hact.
  rewrite snow_step_active by done. cbv zeta. proj.
  rewrite !list_lookup_total_insert_eq by lia. done.
Qed.

Lemma snow_pass_split (s c : Q) (w : World) (i : nat) :
  (i < MAX_SNOW)%nat ->
  snow_pass s c w =
  fold_left (snow_step s c) (seq (S i) (MAX_SNOW - S i))
    (snow_step s c (fold_left (snow_step s c) (seq 0 i) w) i).
Proof.
  intros Hi. unfold snow_pass.
  by rewrite (seq_split MAX_SNOW i Hi), fold_left_app.
Qed.

Lemma pile_pass_split (s c : Q) (w : World) (p : nat) :
  (p < MAX_PILE)%nat ->
  pile_pass s c w =
  let gx := (s * GRAVITY * 2.0%Q)%F in
  let gy := (c * GRAVITY * 2.0%Q)%F in
  fold_left (pile_step s c gx gy) (seq (S p) (MAX_PILE - S p))
    (pile_step s c gx gy
       (fold_left (pile_step s c gx gy) (seq 0 p) w) p).
Proof.
  intros Hp. unfold pile_pass. cbv zeta.
  by rewrite (seq_split MAX_PILE p Hp), fold_left_app.
Qed.

(** The collision pass integrates every flake that is active when the
    pass begins. *)
Lemma snow_pass_integrates (s c : Q) (w : World) (i : nat) :
  inv w -> (i < MAX_SNOW)%nat ->
  sn_act (snow w) !!! i = true ->
  let sn' := snow (snow_pass s c w) in
  sn_x sn' !!! i = next_x w i /\ sn_y sn' !!! i = next_y w i /\
  sn_vy sn' !!! i = next_vy w i /\ sn_vx sn' !!! i = sn_vx (snow w) !!! i.
Proof.
  intros Hw Hi Hact. cbv zeta. rewrite (snow_pass_split s c w i Hi).
  set (wm := fold_left (snow_step s c) (seq 0 i) w).
  assert (flake_of wm i = flake_of w i) as Hm.
  { apply (fold_left_frame _ (fun w' => flake_of w' i) (fun j => j <> i)).
    - intros w' j Hj. by apply snow_step_other_flake.
    - apply Forall_seq_ne. lia. }
  assert (inv wm) as Hwm.
  { apply fold_left_inv; [|done]. intros. by apply snow_step_inv. }
  destruct (next_eq wm w i Hm) as (Ex & Ey & Evy & Evx & Ea).
  destruct (snow_step_self s c wm i (inv_snow _ Hwm) Hi) as (Hx & Hy & Hvy & Hvx);
    [congruence|].
  set (we := fold_left (snow_step s c) _ (snow_step s c wm i)).
  assert (flake_of we i = flake_of (snow_step s c wm i) i) as He.
  { apply (fold_left_frame _ (fun w' => flake_of w' i) (fun j => j <> i)).
    - intros w' j Hj. by apply snow_step_other_flake.
    - apply Forall_seq_ne. lia. }
  unfold flake_of in He. injection He as _ Fx Fy Fvx Fvy.
  rewrite Fx, Fy, Fvx, Fvy. repeat split; congruence.
Qed.

(** The edge-slide pass does not touch a flake in flight. *)
Lemma pile_pass_flake (s c : Q) (w : World) (i : nat) :
  sn_act (snow w) !!! i = true ->
  flake_of (pile_pass s c w) i = flake_of w i.
Proof.
  intros Hact. unfold pile_pass. cbv zeta.
  apply (fold_left_inv (fun w' => flake_of w' i = flake_of w i)); [|done].
  intros w' q Hw'. rewrite pile_step_flake; [done|].
  apply next_eq in Hw'. destruct Hw' as (_ & _ & _ & _ & Ea). congruence.
Qed.

(** The collision pass does not touch a particle resting on the logo. *)
Lemma snow_pass_particle (s c : Q) (w : World) (p : nat) :
  pl_act (pile w) !!! p = true ->
  particle_of (snow_pass s c w) p = particle_of w p.
Proof.
  intros Hact. unfold snow_pass.
  apply (fold_left_inv (fun w' => particle_of w' p = particle_of w p)); [|done].
  intros w' j Hw'. rewrite snow_step_particle; [done|].
  unfold particle_of in Hw'. injection Hw' as Ea _ _ _ _. congruence.
Qed.

(** ** Free fall *)

Lemma check_traj_spec {T : Type} (f : T -> T) (chk : nat -> T -> bool)
    (n k : nat) (w : T) :
  check_traj f chk k n w = true ->
  forall j, (j <= n)%nat -> chk (k + j)%nat (Nat.iter j f w) = true.
Proof.
  revert k w. induction n as [|n IH]; intros k w Hc j Hj; simpl in Hc;
    apply andb_true_iff in Hc as [H0 Hr].
  - assert (j = 0)%nat as -> by lia. by rewrite Nat.add_0_r.
  - destruct j as [|j]; [by rewrite Nat.add_0_r|].
    rewrite Nat.iter_succ_r.
    replace (k + S j)%nat with (S k + j)%nat by lia.
    apply IH; [done | lia].
Qed.

Lemma integrate_iter (x y vx vy : Q) (k : nat) :
  let n := inject_Z (Z.of_nat k) in
  exists xk yk vyk,
    Nat.iter k integrate (x, y, vx, vy) = (xk, yk, vx, vyk) /\
    xk == x + n * vx /\ yk == free_fall_y y vy k /\ vyk == vy + n * GRAVITY.
Proof.
  induction k as [|k IH]; cbv zeta.
  - exists x, y, vy. unfold free_fall_y. simpl. repeat split; try reflexivity; field.
  - destruct IH as (xk & yk & vyk & Hk & Hx & Hy & Hvy).
    rewrite Nat.iter_succ, Hk. unfold integrate.
    eexists _, _, _. split; [reflexivity|].
    unfold free_fall_y in *.
    rewrite Nat2Z.inj_succ. unfold Z.succ. rewrite inject_Z_plus.
    set (n := inject_Z (Z.of_nat k)) in *.
    unfold fadd. rewrite !Qred_correct.
    rewrite Hx, Hy, Hvy. change (inject_Z 1) with 1%Q.
    repeat split; field.
Qed.

Section Ticks.

Variables SIN_LUT COS_LUT : list Q.

Local Abbreviation simT := (simulate SIN_LUT COS_LUT).
Local Abbreviation ticksT := (sim_ticks SIN_LUT COS_LUT).

Lemma pre_pass_flake (o : Oracle) (a : Z) (w : World) (i : nat) :
  sn_act (snow w) !!! i = true ->
  flake_of (pre_pass o a w) i = flake_of w i.
Proof.
  intros Hact. unfold pre_pass, flake_of, spawn. proj.
  destruct (Qltb _ _); [|done].
  destruct (first_free _ _) as [f|] eqn:Hf; [|done].
  apply first_free_Some in Hf as [_ Hf].
  assert (f <> i) by congruence. proj. by frame_ne.
Qed.


(** ** Sliding on an edge *)

Lemma slide_horizontal (e : Z) (gx gy sv rx ry : Q) :
  e = 0 \/ e = 1 ->
  fst (fst (fst (slide e gx gy sv rx ry))) = false ->
  slide e gx gy sv rx ry =
  (false, ((sv + gx) * FRICTION)%F, (rx + (sv + gx) * FRICTION)%F, ry).
Proof.
  intros [-> | ->]; unfold slide; cbn [Z.eqb Pos.eqb].
  - destruct (Qltb gy 0); cbn [fst]; [discriminate|].
    intros ->. reflexivity.
  - destruct (Qltb 0 gy); cbn [fst]; [discriminate|].
    intros ->. reflexivity.
Qed.

(** The step of an active particle stores what [slide] returns. *)
Lemma pile_step_self (s c gx gy : Q) (w : World) (p : nat) :
  pile_wf (pile w) -> (p < MAX_PILE)%nat ->
  pl_act (pile w) !!! p = true ->
  let pl := pile w in
  let r := slide (pl_edge pl !!! p) gx gy
             (pl_sv pl !!! p) (pl_rx pl !!! p) (pl_ry pl !!! p) in
  particle_of (pile_step s c gx gy w p) p =
  (negb (fst (fst (fst r))), snd (fst r), snd r, snd (fst (fst r)),
   pl_edge pl !!! p).
Proof.
  intros (Ha & Hx & Hy & Hv & He) Hp Hact. cbv zeta.
  unfold pile_step, particle_of. rewrite Hact. proj.
  destruct (slide _ _ _ _ _ _) as [[[fall sv] rx] ry]. proj.
  rewrite !list_lookup_total_insert_eq by lia.
  destruct fall; [|by rewrite Hact].
  by rewrite list_lookup_total_insert_eq by lia.
Qed.

Lemma pile_pass_self (s c : Q) (w : World) (p : nat) :
  inv w -> (p < MAX_PILE)%nat ->
  pl_act (pile w) !!! p = true ->
  let pl := pile w in
  let r := slide (pl_edge pl !!! p) (s * GRAVITY * 2.0%Q)%F (c * GRAVITY * 2.0%Q)%F
             (pl_sv pl !!! p) (pl_rx pl !!! p) (pl_ry pl !!! p) in
  particle_of (pile_pass s c w) p =
  (negb (fst (fst (fst r))), snd (fst r), snd r, snd (fst (fst r)),
   pl_edge pl !!! p).
Proof.
  intros Hw Hp Hact. cbv zeta. rewrite (pile_pass_split s c w p Hp). cbv zeta.
  set (gx := (s * GRAVITY * 2.0%Q)%F). set (gy := (c * GRAVITY * 2.0%Q)%F).
  set (wm := fold_left (pile_step s c gx gy) (seq 0 p) w).
  assert (particle_of wm p = particle_of w p) as Hm.
  { apply (fold_left_frame _ (fun w' => particle_of w' p) (fun q => q <> p)).
    - intros w' q Hq. by apply pile_step_other_particle.
    - apply Forall_seq_ne. lia. }
  assert (inv wm) as Hwm.
  { apply fold_left_inv; [|done]. intros. by apply pile_step_inv. }
  set (we := fold_left (pile_step s c gx gy) _ (pile_step s c gx gy wm p)).
  assert (particle_of we p = particle_of (pile_step s c gx gy wm p) p) as ->.
  { apply (fold_left_frame _ (fun w' => particle_of w' p) (fun q => q <> p)).
    - intros w' q Hq. by apply pile_step_other_particle.
    - apply Forall_seq_ne. lia. }
  unfold particle_of in Hm. injection Hm as Ea Ex Ey Ev Ee.
  rewrite (pile_step_self s c gx gy wm p (inv_pile _ Hwm) Hp) by congruence.
  cbv zeta. by rewrite Ex, Ey, Ev, Ee.
Qed.

Lemma snow_step_ctl (s c : Q) (w : World) (i : nat) :
  globals (snow_step s c w i) = globals w /\
  stage (state (snow_step s c w i)) = stage (state w) /\
  rot (state (snow_step s c w i)) = rot (state w).
Proof.
  destruct (sn_act (snow w) !!! i) eqn:Hi;
    [|by rewrite snow_step_dormant].
  by rewrite snow_step_active.
Qed.

Lemma pile_step_ctl (s c gx gy : Q) (w : World) (p : nat) :
  globals (pile_step s c gx gy w p) = globals w /\
  state (pile_step s c gx gy w p) = state w.
Proof.
  unfold pile_step. destruct (pl_act (pile w) !!! p); proj; [|done].
  by destruct (slide _ _ _ _ _ _) as [[[fall sv] rx] ry].
Qed.

Lemma passes_ctl (s c : Q) (w : World) :
  stage (state (passes s c w)) = stage (state w) /\
  rot (state (passes s c w)) = rot (state w).
Proof.
  unfold passes, pile_pass, snow_pass.
  set (P := fun w' => stage (state w') = stage (state w) /\
                      rot (state w') = rot (state w)).
  apply (fold_left_inv P).
  { intros w' p [H1 H2]. unfold P.
    destruct (pile_step_ctl s c (s * GRAVITY * 2.0%Q)%F
                (c * GRAVITY * 2.0%Q)%F w' p) as [_ E].
    rewrite E. by split. }
  apply (fold_left_inv P); [|by split].
  intros w' i [H1 H2]. unfold P.
  destruct (snow_step_ctl s c w' i) as (_ & E1 & E2).
  rewrite E1, E2. by split.
Qed.

Lemma simulate_ctl (o : Oracle) (w : World) :
  stage (state w) = 1 ->
  stage (state (simT o w)) = 1 /\
  rot (state (simT o w)) = rot (state w) /\
  (rot (state w) = false ->
   a_idx (state (simT o w)) = a_idx (state w)).
Proof.
  intros Hst. rewrite (simulate_active SIN_LUT COS_LUT o w Hst).
  destruct (passes_ctl (SIN_LUT !!! Z.to_nat (a_idx (state w)))
              (COS_LUT !!! Z.to_nat (a_idx (state w)))
              (pre_pass o (a_idx (state w)) w)) as [E1 E2].
  rewrite E1, E2, passes_a_idx. unfold pre_pass. proj.
  repeat split; [done|]. by intros ->.
Qed.

Lemma particle_eq (w1 w2 : World) (p : nat) :
  particle_of w1 p = particle_of w2 p ->
  pl_act (pile w1) !!! p = pl_act (pile w2) !!! p /\
  pl_rx (pile w1) !!! p = pl_rx (pile w2) !!! p /\
  pl_ry (pile w1) !!! p = pl_ry (pile w2) !!! p /\
  pl_sv (pile w1) !!! p = pl_sv (pile w2) !!! p /\
  pl_edge (pile w1) !!! p = pl_edge (pile w2) !!! p.
Proof. unfold particle_of. intros [= Ha Hx Hy Hv He]. done. Qed.

(** One active tick on a particle resting on the logo. *)
Lemma simulate_particle (o : Oracle) (w : World) (p : nat) :
  inv w -> stage (state w) = 1 -> (p < MAX_PILE)%nat ->
  particle_active w p = true ->
  let pl := pile w in
  let a := a_idx (state w) in
  let s := SIN_LUT !!! Z.to_nat a in
  let c := COS_LUT !!! Z.to_nat a in
  let r := slide (pl_edge pl !!! p) (s * GRAVITY * 2.0%Q)%F (c * GRAVITY * 2.0%Q)%F
             (pl_sv pl !!! p) (pl_rx pl !!! p) (pl_ry pl !!! p) in
  particle_of (simT o w) p =
  (negb (fst (fst (fst r))), snd (fst r), snd r, snd (fst (fst r)),
   pl_edge pl !!! p).
Proof.
  intros Hw Hst Hp Hact. cbv zeta. unfold particle_active in Hact.
  rewrite (simulate_active SIN_LUT COS_LUT o w Hst). unfold passes.
  set (a := a_idx (state w)).
  set (s := SIN_LUT !!! Z.to_nat a). set (c := COS_LUT !!! Z.to_nat a).
  set (w0 := pre_pass o a w).
  assert (inv w0) as Hw0 by (by apply pre_pass_inv).
  assert (particle_of w0 p = particle_of w p) as H0 by reflexivity.
  set (w1 := snow_pass s c w0).
  assert (particle_of w1 p = particle_of w0 p) as H1
    by (by apply snow_pass_particle).
  assert (inv w1) as Hw1 by (by apply snow_pass_inv).
  rewrite H0 in H1. clearbody w1 w0.
  apply particle_eq in H1 as (Ea & Ex & Ey & Ev & Ee).
  rewrite (pile_pass_self s c w1 p Hw1 Hp) by (rewrite Ea; exact Hact).
  cbv zeta. rewrite Ex, Ey, Ev, Ee. reflexivity.
Qed.

Lemma friction_pow (k : nat) :
  let f := (FRICTION ^ Z.of_nat k)%Q in
  (0 < f /\ f <= 1 /\ f * (19 + inject_Z (Z.of_nat k)) <= 19)%Q.
Proof.
  induction k as [|k IH]; cbv zeta.
  - change (FRICTION ^ Z.of_nat 0)%Q with 1%Q.
    change (inject_Z (Z.of_nat 0)) with 0%Q. repeat split; lra.
  - rewrite Nat2Z.inj_succ. unfold Z.succ.
    rewrite Qpower_plus by discriminate. rewrite inject_Z_plus.
    change (inject_Z 1) with 1%Q. change (FRICTION ^ 1)%Q with FRICTION.
    set (f := (FRICTION ^ Z.of_nat k)%Q) in *.
    set (n := inject_Z (Z.of_nat k)) in *.
    assert (0 <= n)%Q as Hn.
    { unfold n. change 0%Q with (inject_Z 0). rewrite <- Zle_Qle. lia. }
    destruct IH as (H0 & H1 & H2). unfold FRICTION.
    repeat split; nra.
Qed.
Lemma tuple5_eq {A B C D E : Type} (a a' : A) (b b' : B) (c c' : C)
    (d d' : D) (e e' : E) :
  (a, b, c, d, e) = (a', b', c', d', e') ->
  a = a' /\ b = b' /\ c = c' /\ d = d' /\ e = e'.
Proof. intros [= -> -> -> -> ->]. done. Qed.

(** A particle on the top or bottom edge that is still there after the
    tick has slid by the new velocity. *)
Lemma simulate_slide (o : Oracle) (w : World) (p : nat) :
  inv w -> stage (state w) = 1 -> (p < MAX_PILE)%nat ->
  particle_active w p = true ->
  pl_edge (pile w) !!! p = 0 \/ pl_edge (pile w) !!! p = 1 ->
  particle_active (simT o w) p = true ->
  let pl := pile w in
  let pl' := pile (simT o w) in
  let gx := (SIN_LUT !!! Z.to_nat (a_idx (state w)) * GRAVITY * 2.0%Q)%F in
  pl_sv pl' !!! p = ((pl_sv pl !!! p + gx) * FRICTION)%F /\
  pl_rx pl' !!! p = (pl_rx pl !!! p + pl_sv pl' !!! p)%F /\
  pl_ry pl' !!! p = pl_ry pl !!! p /\
  pl_edge pl' !!! p = pl_edge pl !!! p.
Proof.
  intros Hw Hst Hp Hact He Hact'. cbv zeta.
  pose proof (simulate_particle o w p Hw Hst Hp Hact) as Hs. cbv zeta in Hs.
  unfold particle_of in Hs. apply tuple5_eq in Hs as (Ea & Ex & Ey & Ev & Ee).
  unfold particle_active in Hact'. rewrite Hact' in Ea.
  symmetry in Ea. apply negb_true_iff in Ea.
  rewrite (slide_horizontal _ _ _ _ _ _ He Ea) in Ex, Ey, Ev.
  cbn [fst snd] in Ex, Ey, Ev. rewrite Ev, Ex, Ey, Ee. done.
Qed.

Lemma sim_ticks_decay (o : nat -> Oracle) (w : World) (p : nat) (k : nat) :
  inv w -> stage (state w) = 1 -> rot (state w) = false ->
  SIN_LUT !!! Z.to_nat (a_idx (state w)) == 0 ->
  (p < MAX_PILE)%nat ->
  pl_edge (pile w) !!! p = 0 \/ pl_edge (pile w) !!! p = 1 ->
  (forall j, (j <= k)%nat -> particle_active (ticksT o j w) p = true) ->
  let wk := ticksT o k w in
  inv wk /\ stage (state wk) = 1 /\ rot (state wk) = false /\
  a_idx (state wk) = a_idx (state w) /\
  pl_edge (pile wk) !!! p = pl_edge (pile w) !!! p /\
  pl_sv (pile wk) !!! p == pl_sv (pile w) !!! p * FRICTION ^ Z.of_nat k.
Proof.
  intros Hw Hst Hrot Hsin Hp He. cbv zeta.
  induction k as [|k IH]; intros Hact.
  - cbn [sim_ticks].
    change (FRICTION ^ Z.of_nat 0)%Q with 1%Q.
    split; [exact Hw|]. split; [exact Hst|]. split; [exact Hrot|].
    split; [reflexivity|]. split; [reflexivity|]. ring.
  - destruct IH as (Hwk & Hstk & Hrotk & Hak & Hek & Hsvk).
    { intros j Hj. apply Hact. lia. }
    cbn [sim_ticks].
    set (wk := ticksT o k w) in *.
    assert (particle_active wk p = true) as Hactk by (apply Hact; lia).
    assert (particle_active (simT (o k) wk) p = true) as Hact'
      by (apply (Hact (S k)); lia).
    destruct (simulate_ctl (o k) wk Hstk) as (Hst' & Hrot' & Ha').
    assert (pl_edge (pile wk) !!! p = 0 \/ pl_edge (pile wk) !!! p = 1) as Hek'
      by (rewrite Hek; exact He).
    destruct (simulate_slide (o k) wk p Hwk Hstk Hp Hactk Hek' Hact')
      as (Hsv & _ & _ & Hedge).
    clearbody wk.
    split; [by apply simulate_inv|]. split; [exact Hst'|].
    split; [by rewrite Hrot'|]. split; [by rewrite Ha'|].
    split; [by rewrite Hedge|].
    rewrite Hsv, Hak. unfold fadd, fmul. rewrite !Qred_correct.
    rewrite Hsvk, Hsin.
    rewrite Nat2Z.inj_succ. unfold Z.succ.
    rewrite Qpower_plus by discriminate.
    change (FRICTION ^ 1)%Q with FRICTION. ring.
Qed.


(** ** Rotation round trip *)

Lemma to_world_to_local (s c dx dy : Q) :
  let l := to_local s c dx dy in
  let r := to_world s c (fst l) (snd l) in
  fst r == (s * s + c * c) * dx /\ snd r == (s * s + c * c) * dy.
Proof.
  cbv zeta. unfold to_local, to_world. cbn [fst snd].
  unfold fadd, fsub, fmul. rewrite !Qred_correct. split; ring.
Qed.

Lemma to_local_to_world (s c rx ry : Q) :
  let r := to_world s c rx ry in
  let l := to_local s c (fst r) (snd r) in
  fst l == (s * s + c * c) * rx /\ snd l == (s * s + c * c) * ry.
Proof.
  cbv zeta. unfold to_local, to_world. cbn [fst snd].
  unfold fadd, fsub, fmul. rewrite !Qred_correct. split; ring.
Qed.

Lemma scaled_close (u v eps : Q) :
  (Qabs (u - 1) <= eps)%Q -> (Qabs (u * v - v) <= eps * Qabs v)%Q.
Proof.
  intros Hu.
  assert (u * v - v == (u - 1) * v) as -> by ring.
  rewrite Qabs_Qmult. apply Qmult_le_compat_r; [exact Hu | apply Qabs_nonneg].
Qed.


End Ticks.

(** ** Concrete runs *)


Lemma fresh_world_inv : inv fresh_world.
Proof. apply start_inv; apply import_world_wf. Qed.

Lemma one_particle_inv (full : bool) (e : Z) (rx ry sv : Q) :
  inv (one_particle full e rx ry sv).
Proof.
  destruct fresh_world_inv as [Hsn Hpl Hch Hfl Han].
  destruct Hsn as (Ha & Hx & Hy & Hvx & Hvy & Hpx & Hpy).
  destruct Hpl as (Hb & Hrx & Hry & Hsv & He).
  unfold one_particle. split; proj; try assumption.
  - repeat split; proj; len.
  - repeat split; proj; len.
Qed.




Lemma ground_height_upper_bound_witness :
  reachable 5 43 SIN_LUT_9 COS_LUT_9 fresh_world /\
  Forall (fun h => h <= 240) (ground (state fresh_world)).
Proof.
  assert (reachable 5 43 SIN_LUT_9 COS_LUT_9 fresh_world) as Hr
    by apply reach_start.
  split; [exact Hr|].
  exact (proj1 (ground_height_upper_bound 5 43 SIN_LUT_9 COS_LUT_9) _ Hr).
Defined.

(** C1 fails from below.  On the 320x240 screen, with a flake spawned
    every tick at [x = 100], fall speed 1.5 and no drift, column 25 has
    the height -9 after 258 ticks: landing lowers a column by 4 with no
    test against 0. *)
Lemma ground_goes_negative :
  let w := run_seq 5 43 SIN_LUT_9 COS_LUT_9 idle_view
             (map column_oracle (seq 0 258)) fresh_world in
  reachable 5 43 SIN_LUT_9 COS_LUT_9 w /\
  ground (state w) !! 25%nat = Some (-9) /\
  ~ Forall (fun h => 0 <= h <= SCREEN_H (globals w)) (ground (state w)).
Proof.
  cbv zeta.
  assert (ground (state (run_seq 5 43 SIN_LUT_9 COS_LUT_9 idle_view
            (map column_oracle (seq 0 258)) fresh_world)) !! 25%nat
          = Some (-9)) as Hh by (vm_cast_no_check (eq_refl (Some (-9)))).
  split; [|split].
  - apply reachable_run_seq, reach_start.
  - exact Hh.
  - intros Hall.
    pose proof (proj1 (Forall_lookup _ _) Hall _ _ Hh) as Hb.
    cbv beta in Hb. lia.
Qed.

Lemma pool_exhaustion_witness :
  let w1 := full_pile (one_flake false 205 131 0 0.92) in
  let w2 := one_particle true 1 0 12 0 in
  (sn_act (snow w1) !!! 0%nat = true /\
   first_free MAX_PILE (pl_act (pile w1)) = None /\
   sn_act (snow (snow_step 0 1 w1 0)) !!! 0%nat = false /\
   pile (snow_step 0 1 w1 0) = pile w1) /\
  (pl_act (pile w2) !!! 0%nat = true /\
   first_free MAX_SNOW (sn_act (snow w2)) = None /\
   pl_act (pile (pile_step 0 1 0 0.16 w2 0)) !!! 0%nat = false /\
   snow (pile_step 0 1 0 0.16 w2 0) = snow w2).
Proof.
  cbv zeta.
  destruct (pool_exhaustion 5 43 SIN_LUT_9 COS_LUT_9) as (HA & HB & _).
  split.
  - destruct (HA 0%Q 1%Q (full_pile (one_flake false 205 131 0 0.92)) 0%nat)
      as (H1 & H2 & _); try (vm_compute; reflexivity).
    + vm_compute. lia.
    + repeat split; try (vm_compute; reflexivity); assumption.
  - destruct (HB 0%Q 1%Q 0%Q 0.16%Q (one_particle true 1 0 12 0) 0%nat)
      as (H1 & H2); try (vm_compute; reflexivity).
    + vm_compute. lia.
    + repeat split; try (vm_compute; reflexivity); assumption.
Defined.

Lemma rotation_uses_cached_angle_witness :
  let w := one_flake true 205 107 0 0.92 in
  let o := quiet_oracle 0 in
  let w' := run 5 43 SIN_LUT_9 COS_LUT_9 idle_view o w in
  a_idx (state w) = 0 /\
  a_idx (state w') = 1 /\
  w' = pile_pass 0 1 (snow_pass 0 1 (pre_pass o 0 w)) /\
  pl_act (pile w') !!! 0%nat = true /\
  pl_act (pile (pile_pass (SIN_LUT_9 !!! 1%nat) (COS_LUT_9 !!! 1%nat)
                  (snow_pass (SIN_LUT_9 !!! 1%nat) (COS_LUT_9 !!! 1%nat)
                     (pre_pass o 0 w)))) !!! 0%nat = false.
Proof.
  cbv zeta.
  destruct (rotation_uses_cached_angle 5 43 SIN_LUT_9 COS_LUT_9
              idle_view (quiet_oracle 0) (one_flake true 205 107 0 0.92)
              eq_refl eq_refl eq_refl eq_refl eq_refl)
    as (Hrun & _ & _ & Hidx).
  split; [reflexivity|]. split; [exact Hidx|]. split; [exact Hrun|].
  split; vm_compute; reflexivity.
Defined.

(** * Further properties *)

(** ** The line rasteriser *)

Lemma flat_cons (p : Z * Z) (ps : list (Z * Z)) :
  flat (p :: ps) = [fst p; snd p] ++ flat ps.
Proof. reflexivity. Qed.

Lemma flat_length (ps : list (Z * Z)) : length (flat ps) = (2 * length ps)%nat.
Proof.
  induction ps as [|p ps IH]; [done|].
  rewrite flat_cons, length_app, IH. simpl. lia.
Qed.

Section Bresenham.

(** The end point, the two distances and the two step directions, as
    lines 81-84 compute them once. *)
Variables x1 y1 dx ady sx sy : Z.
Hypothesis Hdx : 0 <= dx.
Hypothesis Hady : 0 <= ady.
Hypothesis Hsx : sx = 1 \/ sx = -1.
Hypothesis Hsy : sy = 1 \/ sy = -1.

Lemma cache_line_loop_spec (fuel : nat) :
  forall pts x y err a b,
    line_inv x1 y1 dx ady sx sy x y err a b ->
    (Z.to_nat (a + b) < fuel)%nat ->
    exists ps,
      cache_line_loop fuel pts x y x1 y1 dx (- ady) sx sy err =
        Some (pts ++ flat ((x, y) :: ps)) /\
      last ((x, y) :: ps) = Some (x1, y1) /\
      chain sx sy (x, y) ps /\
      Z.of_nat (length ps) = (if ady <=? dx then a else b) /\
      Forall (fun p => 0 <= sx * (x1 - fst p) <= a /\
                       0 <= sy * (y1 - snd p) <= b) ((x, y) :: ps).
Proof.
  induction fuel as [|fuel IH]; intros pts x y err a b Hinv Hfuel; [lia|].
  destruct Hinv as [Hx Hy Ha Hb Herr Hflat Hsteep].
  destruct ((x =? x1) && (y =? y1)) eqn:Hend.
  - assert (cache_line_loop (S fuel) pts x y x1 y1 dx (- ady) sx sy err =
            Some (pts ++ flat [(x, y)])) as Hrun
      by (cbn [cache_line_loop]; rewrite Hend; reflexivity).
    apply andb_true_iff in Hend as [Ex Ey].
    apply Z.eqb_eq in Ex. apply Z.eqb_eq in Ey.
    assert (a = 0) by nia. assert (b = 0) by nia. subst a b.
    exists [].
    split; [exact Hrun|]. split; [simpl; congruence|]. split; [exact I|].
    split; [by destruct (ady <=? dx)|].
    constructor; [cbn [fst snd]; nia | constructor].
  - assert (a <> 0 \/ b <> 0) as Hab.
    { apply andb_false_iff in Hend as [E|E]; apply Z.eqb_neq in E; [left|right];
        intros ->; apply E; lia. }
    set (X := - ady <=? 2 * err). set (Y := 2 * err <=? dx).
    assert (X = true -> 1 <= a) as HXa.
    { unfold X. intros E%Z.leb_le. nia. }
    assert (Y = true -> 1 <= b) as HYb.
    { unfold Y. intros E%Z.leb_le. nia. }
    assert (X = true \/ Y = true) as HXY.
    { unfold X, Y. destruct (Z.leb_spec (- ady) (2 * err)); [by left|].
      right. apply Z.leb_le. lia. }
    assert (ady <= dx -> X = true) as Hmajx.
    { intros H. apply Z.leb_le. auto. }
    assert (dx <= ady -> Y = true) as Hmajy.
    { intros H. apply Z.leb_le. auto. }
    set (a' := if X then a - 1 else a). set (b' := if Y then b - 1 else b).
    set (x' := if X then x + sx else x). set (y' := if Y then y + sy else y).
    set (err' := (if X then err - ady else err) + (if Y then dx else 0)).
    assert (cache_line_loop (S fuel) pts x y x1 y1 dx (- ady) sx sy err =
            cache_line_loop fuel (pts ++ [x; y]) x' y' x1 y1 dx (- ady) sx sy err')
      as Hstep.
    { cbn [cache_line_loop]. rewrite Hend. fold X Y.
      unfold x', y', err'. destruct X, Y; cbn [fst snd];
        rewrite ?Z.add_0_r; f_equal; lia. }
    assert (line_inv x1 y1 dx ady sx sy x' y' err' a' b') as Hinv'.
    { unfold x', y', err', a', b'. split.
      - destruct X; nia.
      - destruct Y; nia.
      - destruct X; [specialize (HXa eq_refl)|]; lia.
      - destruct Y; [specialize (HYb eq_refl)|]; lia.
      - destruct X, Y; nia.
      - intros H. specialize (Hflat H). specialize (Hmajx H).
        rewrite Hmajx. unfold Y.
        destruct (Z.leb_spec (2 * err) dx); lia.
      - intros H. specialize (Hsteep H). specialize (Hmajy H).
        rewrite Hmajy. unfold X.
        destruct (Z.leb_spec (- ady) (2 * err)); lia. }
    assert (Z.to_nat (a' + b') < fuel)%nat as Hfuel'.
    { unfold a', b'. destruct X, Y;
        try specialize (HXa eq_refl); try specialize (HYb eq_refl);
        first [lia | destruct HXY; discriminate]. }
    destruct (IH (pts ++ [x; y]) x' y' err' a' b' Hinv' Hfuel')
      as (ps & Hrun & Hlast & Hchain & Hlen & Hall).
    exists ((x', y') :: ps).
    split; [|split; [|split; [|split]]].
    + rewrite Hstep, Hrun.
      rewrite (flat_cons (x, y)), <- app_assoc. reflexivity.
    + exact Hlast.
    + split; [|exact Hchain]. unfold pixel_step. cbn [fst snd].
      unfold x', y'. split; [destruct X; auto|]. split; [destruct Y; auto|].
      intros [= E1 E2].
      destruct X, Y; first [lia | destruct HXY; discriminate].
    + cbn [length]. rewrite Nat2Z.inj_succ, Hlen. unfold a', b'.
      destruct (Z.leb_spec ady dx) as [H|H].
      * rewrite (Hmajx H). lia.
      * rewrite (Hmajy ltac:(lia)). lia.
    + constructor; [cbn [fst snd]; nia|].
      eapply Forall_impl; [exact Hall|]. cbn beta. intros p [H1 H2].
      unfold a', b' in *. destruct X, Y;
        try specialize (HXa eq_refl); try specialize (HYb eq_refl); lia.
Qed.

End Bresenham.

(** The end points and step directions [cache_line] works with. *)
Lemma cache_line_path (pts : list Z) (x0 y0 x1 y1 : Q) :
  let X0 := py_int x0 in
  let Y0 := py_int y0 in
  let X1 := py_int x1 in
  let Y1 := py_int y1 in
  let sx := if X0 <? X1 then 1 else -1 in
  let sy := if Y0 <? Y1 then 1 else -1 in
  exists ps,
    cache_line pts x0 y0 x1 y1 = Some (pts ++ flat ((X0, Y0) :: ps)) /\
    last ((X0, Y0) :: ps) = Some (X1, Y1) /\
    chain sx sy (X0, Y0) ps /\
    Z.of_nat (length ps) = Z.max (Z.abs (X1 - X0)) (Z.abs (Y1 - Y0)) /\
    Forall (fun p => Z.min X0 X1 <= fst p <= Z.max X0 X1 /\
                     Z.min Y0 Y1 <= snd p <= Z.max Y0 Y1) ((X0, Y0) :: ps).
Proof.
  cbv zeta. unfold cache_line. cbv zeta.
  set (X0 := py_int x0). set (Y0 := py_int y0).
  set (X1 := py_int x1). set (Y1 := py_int y1).
  set (dx := Z.abs (X1 - X0)). set (ady := Z.abs (Y1 - Y0)).
  set (sx := if X0 <? X1 then 1 else -1).
  set (sy := if Y0 <? Y1 then 1 else -1).
  assert (0 <= dx) as Hdx by (unfold dx; lia).
  assert (0 <= ady) as Hady by (unfold ady; lia).
  assert (sx = 1 /\ X0 < X1 \/ sx = -1 /\ X1 <= X0) as Hsx.
  { unfold sx. destruct (Z.ltb_spec X0 X1); [left | right]; done. }
  assert (sy = 1 /\ Y0 < Y1 \/ sy = -1 /\ Y1 <= Y0) as Hsy.
  { unfold sy. destruct (Z.ltb_spec Y0 Y1); [left | right]; done. }
  destruct (cache_line_loop_spec X1 Y1 dx ady sx sy Hdx Hady
              ltac:(tauto) ltac:(tauto)
              (cache_line_fuel X0 Y0 X1 Y1) pts X0 Y0 (dx + - ady) dx ady)
    as (ps & Hrun & Hlast & Hchain & Hlen & Hall).
  { split; [ destruct Hsx as [[-> ?]|[-> ?]]; unfold dx; lia
           | destruct Hsy as [[-> ?]|[-> ?]]; unfold ady; lia
           | lia | lia | nia | lia | lia ]. }
  { unfold cache_line_fuel. fold dx ady. lia. }
  exists ps. split; [exact Hrun|]. split; [exact Hlast|].
  split; [exact Hchain|]. split.
  - rewrite Hlen. destruct (Z.leb_spec ady dx); lia.
  - eapply Forall_impl; [exact Hall|]. cbn beta. intros p [H1 H2].
    destruct Hsx as [[-> ?]|[-> ?]]; destruct Hsy as [[-> ?]|[-> ?]];
      unfold dx, ady in *; lia.
Qed.

(** X1.  [cache_line] always returns: the loop ends within the fuel it is
    given.  The call leaves what the list held in place and appends
    coordinates pairwise, the first pair being the start point and the
    last pair the end point (both truncated to integers). *)
Theorem cache_line_appends (pts : list Z) (x0 y0 x1 y1 : Q) :
  exists ps,
    cache_line pts x0 y0 x1 y1 =
      Some (pts ++ flat ((py_int x0, py_int y0) :: ps)) /\
    last ((py_int x0, py_int y0) :: ps) = Some (py_int x1, py_int y1).
Proof.
  destruct (cache_line_path pts x0 y0 x1 y1) as (ps & H1 & H2 & _).
  by exists ps.
Qed.

(** X2.  Every point [cache_line] emits lies in the bounding box of the
    two end points, and each point is one pixel step from the one
    before: every coordinate either stays or moves one pixel toward the
    end point, and at least one moves. *)
Theorem cache_line_connected (pts : list Z) (x0 y0 x1 y1 : Q) :
  let X0 := py_int x0 in
  let Y0 := py_int y0 in
  let X1 := py_int x1 in
  let Y1 := py_int y1 in
  exists ps,
    cache_line pts x0 y0 x1 y1 = Some (pts ++ flat ((X0, Y0) :: ps)) /\
    chain (if X0 <? X1 then 1 else -1) (if Y0 <? Y1 then 1 else -1)
      (X0, Y0) ps /\
    Forall (fun p => Z.min X0 X1 <= fst p <= Z.max X0 X1 /\
                     Z.min Y0 Y1 <= snd p <= Z.max Y0 Y1) ((X0, Y0) :: ps).
Proof.
  cbv zeta.
  destruct (cache_line_path pts x0 y0 x1 y1) as (ps & H1 & _ & H3 & _ & H5).
  by exists ps.
Qed.

(** X3.  [cache_line] emits one point more than the larger of the two
    distances: the list grows by twice that many entries.  A segment of
    length zero adds its single point. *)
Theorem cache_line_count (pts : list Z) (x0 y0 x1 y1 : Q) :
  let n := Z.max (Z.abs (py_int x1 - py_int x0))
                 (Z.abs (py_int y1 - py_int y0)) in
  (exists out,
     cache_line pts x0 y0 x1 y1 = Some (pts ++ out) /\
     Z.of_nat (length out) = 2 * (n + 1)) /\
  (py_int x0 = py_int x1 -> py_int y0 = py_int y1 ->
   cache_line pts x0 y0 x1 y1 = Some (pts ++ [py_int x0; py_int y0])).
Proof.
  cbv zeta.
  destruct (cache_line_path pts x0 y0 x1 y1) as (ps & H1 & _ & _ & H4 & _).
  cbv zeta in H4. split.
  - eexists. split; [exact H1|].
    rewrite flat_length. cbn [length]. lia.
  - intros Ex Ey. rewrite H1.
    rewrite Ex, Ey, !Z.sub_diag in H4. cbn in H4.
    destruct ps; [reflexivity | discriminate].
Qed.

Lemma cache_line_count_witness :
  cache_line [7] 3 3 3 3 = Some [7; 3; 3].
Proof.
  exact (proj2 (cache_line_count [7] 3 3 3 3) eq_refl eq_refl).
Defined.

(** ** The render caches *)

Lemma flat_app (ps qs : list (Z * Z)) : flat (ps ++ qs) = flat ps ++ flat qs.
Proof. unfold flat. by rewrite map_app, concat_app. Qed.

(** [cache_line] between two integer points: the points it appends lie
    in the bounding box of the two and are one more than the larger
    distance. *)
Lemma cache_line_box (ps : list (Z * Z)) (x0 y0 x1 y1 : Z) :
  exists qs,
    cache_line (flat ps) (inject_Z x0) (inject_Z y0) (inject_Z x1) (inject_Z y1)
      = Some (flat (ps ++ qs)) /\
    Z.of_nat (length qs) = Z.max (Z.abs (x1 - x0)) (Z.abs (y1 - y0)) + 1 /\
    Forall (fun p => Z.min x0 x1 <= fst p <= Z.max x0 x1 /\
                     Z.min y0 y1 <= snd p <= Z.max y0 y1) qs.
Proof.
  destruct (cache_line_path (flat ps) (inject_Z x0) (inject_Z y0)
              (inject_Z x1) (inject_Z y1)) as (qs & H1 & _ & _ & H4 & H5).
  cbv zeta in H4, H5. rewrite !py_int_inject in *.
  exists ((x0, y0) :: qs). split; [by rewrite flat_app|].
  split; [cbn [length]; lia | exact H5].
Qed.

Lemma cache_lines_box (xl xh yl yh : Z) (lines : list (Z * Z * Z * Z)) :
  Forall (fun '(x0, y0, x1, y1) =>
            (xl <= x0 <= xh /\ xl <= x1 <= xh) /\
            (yl <= y0 <= yh /\ yl <= y1 <= yh)) lines ->
  forall ps, exists qs,
    cache_lines (flat ps) lines = Some (flat (ps ++ qs)) /\
    Z.of_nat (length qs) =
      fold_right Z.add 0
        (map (fun '(x0, y0, x1, y1) =>
                Z.max (Z.abs (x1 - x0)) (Z.abs (y1 - y0)) + 1) lines) /\
    Forall (fun p => xl <= fst p <= xh /\ yl <= snd p <= yh) qs.
Proof.
  induction 1 as [|[[[x0 y0] x1] y1] lines Hl _ IH]; intros ps.
  - exists []. by rewrite app_nil_r.
  - destruct (cache_line_box ps x0 y0 x1 y1) as (qs & Hrun & Hlen & Hin).
    destruct (IH (ps ++ qs)) as (rs & Hrun' & Hlen' & Hin').
    exists (qs ++ rs). cbn [cache_lines]. rewrite Hrun, Hrun', app_assoc.
    split; [done|]. split.
    + rewrite length_app. cbn [map fold_right]. lia.
    + apply Forall_app. split; [|done].
      eapply Forall_impl; [exact Hin|]. cbn beta. lia.
Qed.

(** X11.  [start] leaves the two caches the same whatever they held
    before.  [box_pts] holds 232 points, all on the outline of the logo
    rectangle; [text_pts] holds 362 points, all inside the rectangle and
    off its outline.  Both lists have even length. *)
Theorem start_caches_outline (old_box old_text : list Z) :
  exists box txt,
    start_caches old_box old_text = Some (flat box, flat txt) /\
    length box = 232%nat /\ length txt = 362%nat /\
    Forall on_outline box /\ Forall inside_logo txt.
Proof.
  unfold start_caches.
  change L_LEFT with (inject_Z (-45)). change L_RIGHT with (inject_Z 45).
  change L_TOP with (inject_Z (-12)). change L_BOT with (inject_Z 12).
  destruct (cache_line_box [] (-45) (-12) 45 (-12)) as (e1 & R1 & N1 & B1).
  destruct (cache_line_box ([] ++ e1) 45 (-12) 45 12) as (e2 & R2 & N2 & B2).
  destruct (cache_line_box (([] ++ e1) ++ e2) 45 12 (-45) 12)
    as (e3 & R3 & N3 & B3).
  destruct (cache_line_box ((([] ++ e1) ++ e2) ++ e3) (-45) 12 (-45) (-12))
    as (e4 & R4 & N4 & B4).
  destruct (cache_lines_box (-39) 38 (-6) 6 LOGO_LINES) with (ps := @nil (Z * Z))
    as (txt & Rt & Nt & Bt).
  { unfold LOGO_LINES. repeat (constructor; [lia|]). constructor. }
  change (flat []) with (@nil Z) in R1, Rt.
  rewrite R1, R2, R3, R4, Rt.
  exists (((([] ++ e1) ++ e2) ++ e3) ++ e4), ([] ++ txt).
  split; [done|]. split; [|split; [|split]].
  - rewrite !length_app. cbn [length]. lia.
  - cbn [app]. apply Nat2Z.inj. rewrite Nt. reflexivity.
  - repeat (apply Forall_app; split); try constructor;
      (eapply Forall_impl; [eassumption|]); cbn beta; unfold on_outline; lia.
  - exact Bt.
Qed.

(** ** Slot allocation *)

Lemma find_seq_least (f : nat -> bool) (n a p : nat) :
  find f (seq a n) = Some p ->
  (a <= p < a + n)%nat /\ f p = true /\
  forall q, (a <= q < p)%nat -> f q = false.
Proof.
  revert a. induction n as [|n IH]; intros a Hf; cbn [seq find] in Hf;
    [discriminate|].
  destruct (f a) eqn:Ea.
  - injection Hf as <-. split; [lia|]. split; [done|]. intros q Hq. lia.
  - destruct (IH _ Hf) as (Hp & Hfp & Hq). split; [lia|]. split; [done|].
    intros q Hq'. destruct (decide (q = a)) as [->|]; [done|].
    apply Hq. lia.
Qed.

(** The scan for a dormant slot stops at the lowest one. *)
Lemma first_free_least (n : nat) (act : list bool) (p : nat) :
  first_free n act = Some p ->
  (p < n)%nat /\ act !!! p = false /\
  forall q, (q < p)%nat -> act !!! q = true.
Proof.
  intros Hf. apply find_seq_least in Hf as (Hp & Hfp & Hq).
  split; [lia|]. split; [by apply negb_true_iff|].
  intros q Hlt. apply negb_false_iff, Hq. lia.
Qed.

(** Counting active slots across an update. *)
Lemma active_count_cons (b : bool) (act : list bool) :
  active_count (b :: act) =
  ((if b then 1 else 0) + active_count act)%nat.
Proof.
  unfold active_count. rewrite filter_cons.
  destruct b; case_decide; try done; cbn [length]; lia.
Qed.

Lemma active_count_insert (act : list bool) (i : nat) (b : bool) :
  (i < length act)%nat ->
  (active_count (<[i := b]> act) + (if (act !!! i : bool) then 1 else 0) =
   active_count act + (if b then 1 else 0))%nat.
Proof.
  revert i. induction act as [|c act IH]; intros i Hi; [simpl in Hi; lia|].
  destruct i as [|i].
  - cbn [insert list_insert]. rewrite !active_count_cons.
    change ((c :: act) !!! 0%nat) with c. destruct b, c; lia.
  - change (<[S i := b]> (c :: act)) with (c :: <[i := b]> act).
    change ((c :: act) !!! S i) with (act !!! i).
    rewrite !active_count_cons. simpl in Hi.
    specialize (IH i ltac:(lia)). lia.
Qed.


(** X4.  A spawn (lines 179-189) does nothing when [random()] is at
    least 0.4 or when no flake slot is dormant.  Otherwise it wakes the
    lowest dormant slot, and only that one: the flake starts at the
    drawn abscissa, 5 pixels above the screen, with the drawn velocity
    and its previous position equal to its position; one more flake is
    active. *)
Theorem spawn_lowest_slot (o : Oracle) (sn : Snow) :
  snow_wf sn ->
  ((0.4 <= rand o)%Q -> spawn o sn = sn) /\
  (first_free MAX_SNOW (sn_act sn) = None -> spawn o sn = sn) /\
  (forall i,
     (rand o < 0.4)%Q -> first_free MAX_SNOW (sn_act sn) = Some i ->
     let sn' := spawn o sn in
     (forall q, (q < i)%nat -> sn_act sn !!! q = true) /\
     sn_act sn !!! i = false /\
     sn_act sn' !!! i = true /\
     sn_x sn' !!! i = inject_Z (rand_r o) /\ sn_y sn' !!! i = (-5.0)%Q /\
     sn_vx sn' !!! i = rand_u_vx o /\ sn_vy sn' !!! i = rand_u_vy o /\
     sn_px sn' !!! i = sn_x sn' !!! i /\ sn_py sn' !!! i = sn_y sn' !!! i /\
     (forall j, j <> i ->
        sn_act sn' !!! j = sn_act sn !!! j /\
        sn_x sn' !!! j = sn_x sn !!! j /\ sn_y sn' !!! j = sn_y sn !!! j /\
        sn_vx sn' !!! j = sn_vx sn !!! j /\ sn_vy sn' !!! j = sn_vy sn !!! j /\
        sn_px sn' !!! j = sn_px sn !!! j /\ sn_py sn' !!! j = sn_py sn !!! j) /\
     active_count (sn_act sn') = S (active_count (sn_act sn))).
Proof.
  intros (Ha & Hx & Hy & Hvx & Hvy & Hpx & Hpy).
  split; [|split].
  - intros Hr. unfold spawn. by rewrite (proj2 (Qltb_false _ _) Hr).
  - intros Hf. unfold spawn. rewrite Hf. by destruct (Qltb _ _).
  - intros i Hr Hf. cbv zeta. unfold spawn.
    rewrite (proj2 (Qltb_true _ _) Hr), Hf. proj.
    destruct (first_free_least _ _ _ Hf) as (Hi & Hfree & Hlow).
    split; [exact Hlow|]. split; [exact Hfree|].
    rewrite !list_lookup_total_insert_eq by lia.
    repeat (split; [reflexivity|]). split.
    + intros j Hj. by frame_ne.
    + pose proof (active_count_insert (sn_act sn) i true ltac:(lia)) as Hc.
      rewrite Hfree in Hc. lia.
Qed.

Lemma spawn_lowest_slot_witness :
  let sn := snow fresh_world in
  let sn' := spawn scenario_A_oracle sn in
  snow_wf sn /\ (rand scenario_A_oracle < 0.4)%Q /\
  first_free MAX_SNOW (sn_act sn) = Some 0%nat /\
  sn_act sn' !!! 0%nat = true /\ sn_y sn' !!! 0%nat = (-5.0)%Q /\
  active_count (sn_act sn') = 1%nat.
Proof.
  cbv zeta.
  assert (snow_wf (snow fresh_world)) as Hwf by (repeat split; reflexivity).
  destruct (spawn_lowest_slot scenario_A_oracle (snow fresh_world) Hwf)
    as (_ & _ & H).
  destruct (H 0%nat eq_refl eq_refl) as (_ & _ & Hact & _ & Hy & _ & _ & _ & _ & _ & Hc).
  split; [exact Hwf|]. split; [reflexivity|]. split; [reflexivity|].
  split; [exact Hact|]. split; [exact Hy|]. rewrite Hc. reflexivity.
Defined.

(** ** Particles in play *)

Lemma spawn_count (o : Oracle) (sn : Snow) :
  snow_wf sn ->
  (active_count (sn_act (spawn o sn)) <= S (active_count (sn_act sn)))%nat /\
  ((0.4 <= rand o)%Q -> spawn o sn = sn).
Proof.
  intros (Ha & _). unfold spawn. destruct (Qltb (rand o) 0.4) eqn:Hr.
  - split; [|intros Hge; apply Qltb_false in Hge; congruence].
    destruct (first_free _ _) as [i|] eqn:Hf; [|lia]. proj.
    destruct (first_free_least _ _ _ Hf) as (Hi & Hfree & _).
    pose proof (active_count_insert (sn_act sn) i true ltac:(lia)) as Hc.
    rewrite Hfree in Hc. lia.
  - split; [lia | done].
Qed.

Lemma pile_alloc_count (lx ly : Q) (pl : Pile) :
  pile_wf pl ->
  (active_count (pl_act (pile_alloc lx ly pl)) <= S (active_count (pl_act pl)))%nat.
Proof.
  intros (Ha & _). unfold pile_alloc.
  destruct (first_free _ _) as [f|] eqn:Hf; [|lia].
  destruct (first_free_least _ _ _ Hf) as (Hi & Hfree & _).
  destruct (snap lx ly) as [[rx ry] e]. proj.
  pose proof (active_count_insert (pl_act pl) f true ltac:(lia)) as Hc.
  rewrite Hfree in Hc. lia.
Qed.

Lemma snow_alloc_count (ax ay vx vy : Q) (sn : Snow) :
  snow_wf sn ->
  (active_count (sn_act (snow_alloc ax ay vx vy sn)) <=
   S (active_count (sn_act sn)))%nat.
Proof.
  intros (Ha & _). unfold snow_alloc.
  destruct (first_free _ _) as [f|] eqn:Hf; [|lia].
  destruct (first_free_least _ _ _ Hf) as (Hi & Hfree & _). proj.
  pose proof (active_count_insert (sn_act sn) f true ltac:(lia)) as Hc.
  rewrite Hfree in Hc. lia.
Qed.

Lemma snow_step_in_play (s c : Q) (w : World) (i : nat) :
  inv w -> (i < MAX_SNOW)%nat ->
  (in_play (snow_step s c w i) <= in_play w)%nat.
Proof.
  intros [Hsn Hpl _ _ _] Hi.
  destruct (sn_act (snow w) !!! i) eqn:Hact;
    [|by rewrite snow_step_dormant].
  rewrite snow_step_active by done. cbv zeta. unfold in_play. proj.
  destruct Hsn as (Ha & _).
  pose proof (active_count_insert (sn_act (snow w)) i false ltac:(lia)) as Hc.
  rewrite Hact in Hc.
  destruct (snd (ground_test w i)); proj; [lia|].
  unfold logo_test, body_test. destruct (to_local _ _ _ _) as [lx ly].
  destruct (in_box lx ly); proj.
  - pose proof (pile_alloc_count lx ly (pile w) Hpl). lia.
  - destruct (Qle_bool _ _); lia.
Qed.

Lemma pile_step_in_play (s c gx gy : Q) (w : World) (p : nat) :
  inv w -> (p < MAX_PILE)%nat ->
  (in_play (pile_step s c gx gy w p) <= in_play w)%nat.
Proof.
  intros [Hsn Hpl _ _ _] Hp. unfold pile_step.
  destruct (pl_act (pile w) !!! p) eqn:Hact; proj; [|done].
  destruct (slide _ _ _ _ _ _) as [[[fall sv] rx] ry].
  unfold in_play. proj. destruct fall; [|lia].
  destruct Hpl as (Hb & _).
  pose proof (active_count_insert (pl_act (pile w)) p false ltac:(lia)) as Hc.
  rewrite Hact in Hc.
  unfold fall_off. destruct (to_world _ _ _ _) as [wx wy].
  destruct (_ <? 2).
  - pose proof (snow_alloc_count (wx + inject_Z (CX (globals w)))%F
                  (wy + inject_Z (CY (globals w)))%F
                  (sv * c)%F (sv * s + 1.0%Q)%F (snow w) Hsn). lia.
  - pose proof (snow_alloc_count (wx + inject_Z (CX (globals w)))%F
                  (wy + inject_Z (CY (globals w)))%F
                  (- sv * s)%F (sv * c + 1.0%Q)%F (snow w) Hsn). lia.
Qed.

Lemma fold_left_inv_in {T B : Type} (P : T -> Prop) (Q : B -> Prop)
    (f : T -> B -> T) (l : list B) :
  (forall s b, Q b -> P s -> P (f s b)) -> Forall Q l ->
  forall s, P s -> P (fold_left f l s).
Proof.
  intros Hf Hl. induction Hl as [|b l Hb Hl IH]; simpl; auto.
Qed.

Lemma Forall_seq_lt (n : nat) : Forall (fun j => (j < n)%nat) (seq 0 n).
Proof. apply Forall_forall. intros j Hj%elem_of_seq. lia. Qed.

Lemma passes_in_play (s c : Q) (w : World) :
  inv w -> (in_play (passes s c w) <= in_play w)%nat.
Proof.
  intros Hw. unfold passes, pile_pass, snow_pass.
  set (P := fun w' => inv w' /\ (in_play w' <= in_play w)%nat).
  assert (P (fold_left (snow_step s c) (seq 0 MAX_SNOW) w)) as H1.
  { apply (fold_left_inv_in P (fun j => (j < MAX_SNOW)%nat));
      [|apply Forall_seq_lt|by split].
    intros w' i Hi [Hw' Hle]. split; [by apply snow_step_inv|].
    pose proof (snow_step_in_play s c w' i Hw' Hi). lia. }
  cbv zeta.
  apply (fold_left_inv_in P (fun j => (j < MAX_PILE)%nat));
    [|apply Forall_seq_lt|exact H1].
  intros w' p Hp [Hw' Hle]. split; [by apply pile_step_inv|].
  pose proof (pile_step_in_play s c (s * GRAVITY * 2.0%Q)%F
                (c * GRAVITY * 2.0%Q)%F w' p Hw' Hp). lia.
Qed.

Lemma clear_flags_count (n : nat) (act : list bool) :
  length act = n -> active_count (clear_flags n act) = 0%nat.
Proof.
  intros Hl. rewrite clear_flags_full by done.
  unfold active_count. clear Hl. induction n as [|n IH]; [done|].
  cbn [replicate]. rewrite filter_cons. case_decide; [done | exact IH].
Qed.

Section Extras.

Variables BUTTON_BACK BUTTON_ESCAPE : Z.
Variables SIN_LUT COS_LUT : list Q.

Local Abbreviation runT := (run BUTTON_BACK BUTTON_ESCAPE SIN_LUT COS_LUT).
Local Abbreviation simT := (simulate SIN_LUT COS_LUT).
Local Abbreviation reachT :=
  (reachable BUTTON_BACK BUTTON_ESCAPE SIN_LUT COS_LUT).
Local Abbreviation ticksT := (sim_ticks SIN_LUT COS_LUT).

Lemma simulate_dormant (o : Oracle) (w : World) :
  stage (state w) <> 1 -> simT o w = w.
Proof.
  intros Hst. unfold simulate.
  destruct (stage (state w) =? 1) eqn:E; [lia | reflexivity].
Qed.

Lemma pre_pass_in_play (o : Oracle) (a : Z) (w : World) :
  inv w ->
  (in_play (pre_pass o a w) <= S (in_play w))%nat /\
  ((0.4 <= rand o)%Q -> in_play (pre_pass o a w) = in_play w).
Proof.
  intros Hw. unfold in_play, pre_pass. proj.
  destruct (spawn_count o (snow w) (inv_snow _ Hw)) as [Hc Hno].
  split; [lia | by intros Hr; rewrite (Hno Hr)].
Qed.

Lemma simulate_in_play (o : Oracle) (w : World) :
  inv w ->
  (in_play (simT o w) <= S (in_play w))%nat /\
  ((0.4 <= rand o)%Q -> (in_play (simT o w) <= in_play w)%nat).
Proof.
  intros Hw. destruct (Z.eq_dec (stage (state w)) 1) as [Hst|Hst].
  - rewrite (simulate_active SIN_LUT COS_LUT o w Hst).
    pose proof (passes_in_play (SIN_LUT !!! Z.to_nat (a_idx (state w)))
                  (COS_LUT !!! Z.to_nat (a_idx (state w)))
                  (pre_pass o (a_idx (state w)) w) (pre_pass_inv o w Hw)) as Hle.
    destruct (pre_pass_in_play o (a_idx (state w)) w Hw) as [H1 H2].
    revert Hle H1 H2.
    generalize (in_play (passes (SIN_LUT !!! Z.to_nat (a_idx (state w)))
                   (COS_LUT !!! Z.to_nat (a_idx (state w)))
                   (pre_pass o (a_idx (state w)) w))).
    generalize (in_play (pre_pass o (a_idx (state w)) w)).
    intros n0 n1 Hle H1 H2. split; [lia|]. intros Hr. specialize (H2 Hr). lia.
  - rewrite (simulate_dormant o w Hst). split; intros; lia.
Qed.

(** X5.  A call of [run] puts at most one more particle in play (active
    flakes plus active pile particles): the two passes only move
    particles between the pools or drop them, the spawn adds at most
    one, and without a spawn the number does not grow. *)
Theorem run_in_play (vm : ViewManager) (o : Oracle) (w : World) :
  reachT w ->
  (in_play (runT vm o w) <= S (in_play w))%nat /\
  ((0.4 <= rand o)%Q -> (in_play (runT vm o w) <= in_play w)%nat).
Proof.
  intros Hr. pose proof (reachable_inv _ _ _ _ _ Hr) as Hw.
  unfold run. destruct (_ || _); [split; intros; lia|].
  set (w1 := if _ && _ then _ else w).
  assert (inv w1 /\ in_play w1 = in_play w) as [Hw1 E1].
  { subst w1. destruct (_ && _); [|done]. split; [by apply set_rot_inv | done]. }
  clearbody w1. destruct (button vm =? BUTTON_R).
  - assert (in_play (start vm o w1) = 0%nat) as ->; [|split; intros; lia].
    destruct Hw1 as [(Ha & _) (Hb & _) _ _ _].
    unfold in_play, start. proj. by rewrite !clear_flags_count.
  - set (w2 := if _ && _ then _ else w1).
    assert (inv w2 /\ in_play w2 = in_play w1) as [Hw2 E2].
    { subst w2. destruct (_ && _); [|done].
      split; [by apply set_stage_inv | done]. }
    clearbody w2. destruct (simulate_in_play o w2 Hw2) as [H1 H2].
    split; [lia|]. intros Hq. specialize (H2 Hq). lia.
Qed.

(** ** Stage, rotation flag and angle index *)

Lemma simulate_stage_rot (o : Oracle) (w : World) :
  stage (state (simT o w)) = stage (state w) /\
  rot (state (simT o w)) = rot (state w).
Proof.
  destruct (Z.eq_dec (stage (state w)) 1) as [Hst|Hst].
  - rewrite (simulate_active SIN_LUT COS_LUT o w Hst).
    destruct (passes_ctl (SIN_LUT !!! Z.to_nat (a_idx (state w)))
                (COS_LUT !!! Z.to_nat (a_idx (state w)))
                (pre_pass o (a_idx (state w)) w)) as [E1 E2].
    rewrite E1, E2. by split.
  - by rewrite (simulate_dormant o w Hst).
Qed.

Lemma reachable_stage (w : World) :
  reachT w -> stage (state w) = 0 \/ stage (state w) = 1.
Proof.
  induction 1 as [vm o | vm o w Hr IH]; [by left|].
  unfold run. destruct (_ || _); [exact IH|].
  set (w1 := if _ && _ then _ else w).
  assert (stage (state w1) = stage (state w)) as E1
    by (subst w1; by destruct (_ && _)).
  clearbody w1. destruct (button vm =? BUTTON_R); [by left|].
  set (w2 := if _ && _ then _ else w1).
  assert (stage (state w2) = 0 \/ stage (state w2) = 1) as E2.
  { subst w2. destruct (_ && _); [by right | by rewrite E1]. }
  clearbody w2. by rewrite (proj1 (simulate_stage_rot o w2)).
Qed.

(** X6.  The stage of a reachable state is 0 or 1.  In stage 0, until
    more than 5000 ms have passed since [start], a call of [run] without
    the reset key changes nothing at all; once they have passed, a call
    that is not an exit moves to stage 1.  From stage 1 only the reset
    key leads back to stage 0. *)
Theorem stage_machine (vm : ViewManager) (o : Oracle) (w : World) :
  reachT w ->
  (stage (state w) = 0 \/ stage (state w) = 1) /\
  (stage (state w) = 0 -> (button vm =? BUTTON_R) = false ->
   ticks_diff (ticks_ms_run o) (start_time (state w)) <= 5000 ->
   runT vm o w = w) /\
  (stage (state w) = 0 -> (button vm =? BUTTON_R) = false ->
   (button vm =? BUTTON_BACK) || (button vm =? BUTTON_ESCAPE) = false ->
   5000 < ticks_diff (ticks_ms_run o) (start_time (state w)) ->
   stage (state (runT vm o w)) = 1) /\
  (stage (state w) = 1 -> (button vm =? BUTTON_R) = false ->
   stage (state (runT vm o w)) = 1) /\
  ((button vm =? BUTTON_R) = true ->
   (button vm =? BUTTON_BACK) || (button vm =? BUTTON_ESCAPE) = false ->
   stage (state (runT vm o w)) = 0).
Proof.
  intros Hr. split; [by apply reachable_stage|].
  split; [|split; [|split]].
  - intros Hst HR Ht. unfold run. destruct (_ || _); [done|].
    rewrite Hst, HR. change (0 =? 1) with false. rewrite andb_false_r.
    rewrite Hst. change (0 =? 0) with true. cbn [andb].
    destruct (5000 <? _) eqn:E; [lia|].
    apply simulate_dormant. lia.
  - intros Hst HR Hesc Ht. unfold run. rewrite Hesc, HR, Hst.
    change (0 =? 1) with false. rewrite andb_false_r. rewrite Hst.
    change (0 =? 0) with true. cbn [andb].
    destruct (5000 <? _) eqn:E; [|lia].
    by rewrite (proj1 (simulate_stage_rot o (set_stage 1 w))).
  - intros Hst HR. unfold run. destruct (_ || _); [done|]. rewrite HR.
    set (w1 := if _ && _ then _ else w).
    assert (stage (state w1) = 1) as E1
      by (subst w1; by destruct (_ && _)).
    clearbody w1. rewrite E1. change (1 =? 0) with false. cbn [andb].
    by rewrite (proj1 (simulate_stage_rot o w1)).
  - intros HR Hesc. unfold run. by rewrite Hesc, HR.
Qed.

(** X7.  The key G, when it is not read as an exit key, flips the
    rotation flag in stage 1 and only there: in any other stage the flag
    is as before. *)
Theorem g_key_toggles (vm : ViewManager) (o : Oracle) (w : World) :
  button vm = BUTTON_G ->
  (BUTTON_G =? BUTTON_BACK) || (BUTTON_G =? BUTTON_ESCAPE) = false ->
  (stage (state w) = 1 ->
   rot (state (runT vm o w)) = negb (rot (state w))) /\
  (stage (state w) <> 1 ->
   rot (state (runT vm o w)) = rot (state w)).
Proof.
  intros Hb Hesc. unfold run. rewrite Hb, Hesc.
  change (BUTTON_G =? BUTTON_G) with true.
  change (BUTTON_G =? BUTTON_R) with false. cbn [andb]. split.
  - intros Hst. rewrite Hst. change (1 =? 1) with true. cbv iota.
    change (stage (state (set_rot (negb (rot (state w))) w))) with
      (stage (state w)).
    rewrite Hst. change (1 =? 0) with false. cbn [andb].
    by rewrite (proj2 (simulate_stage_rot o _)).
  - intros Hst. destruct (stage (state w) =? 1) eqn:E; [lia|].
    destruct (_ && _); by rewrite (proj2 (simulate_stage_rot o _)).
Qed.

Lemma simulate_a_idx (o : Oracle) (w : World) :
  stage (state w) = 1 ->
  a_idx (state (simT o w)) =
  if rot (state w) then (a_idx (state w) + 1) mod ROT_STEPS
  else a_idx (state w).
Proof.
  intros Hst. rewrite (simulate_active SIN_LUT COS_LUT o w Hst).
  rewrite passes_a_idx. reflexivity.
Qed.

(** X8.  While the stage is 1 and rotation is on, every tick advances
    the angle index by one modulo [ROT_STEPS]: after [k] ticks it is
    [(a + k) mod 126], so 126 ticks bring it back; with rotation off it
    does not move. *)
Theorem angle_index_wraps (o : nat -> Oracle) (w : World) (k : nat) :
  stage (state w) = 1 ->
  0 <= a_idx (state w) < ROT_STEPS ->
  a_idx (state (ticksT o k w)) =
    (if rot (state w)
     then (a_idx (state w) + Z.of_nat k) mod ROT_STEPS
     else a_idx (state w)) /\
  (k = 126%nat -> a_idx (state (ticksT o k w)) = a_idx (state w)).
Proof.
  intros Hst Ha.
  assert (stage (state (ticksT o k w)) = 1 /\
          rot (state (ticksT o k w)) = rot (state w) /\
          a_idx (state (ticksT o k w)) =
            (if rot (state w)
             then (a_idx (state w) + Z.of_nat k) mod ROT_STEPS
             else a_idx (state w))) as (_ & _ & Hk).
  { induction k as [|k (IH1 & IH2 & IH3)]; cbn [sim_ticks].
    - split; [done|]. split; [done|].
      destruct (rot (state w)); [|done].
      rewrite Z.add_0_r, Z.mod_small; done.
    - destruct (simulate_stage_rot (o k) (ticksT o k w)) as [E1 E2].
      rewrite E1, E2, (simulate_a_idx (o k) _ IH1), IH2, IH3.
      split; [done|]. split; [done|].
      destruct (rot (state w)); [|done].
      rewrite Zplus_mod_idemp_l. f_equal. lia. }
  split; [exact Hk|]. intros ->. rewrite Hk.
  destruct (rot (state w)); [|done].
  change (Z.of_nat 126) with (1 * ROT_STEPS).
  rewrite Z.mod_add by discriminate. apply Z.mod_small. exact Ha.
Qed.

(** ** Indices stay in range *)


Lemma passes_globals (s c : Q) (w : World) :
  globals (passes s c w) = globals w.
Proof.
  unfold passes, pile_pass, snow_pass. cbv zeta.
  apply (fold_left_inv (fun w' => globals w' = globals w)).
  { intros w' p Hw'. by rewrite (proj1 (pile_step_ctl s c _ _ w' p)). }
  apply (fold_left_inv (fun w' => globals w' = globals w)); [|done].
  intros w' i Hw'. by rewrite (proj1 (snow_step_ctl s c w' i)).
Qed.

Lemma simulate_globals (o : Oracle) (w : World) :
  globals (simT o w) = globals w.
Proof.
  destruct (Z.eq_dec (stage (state w)) 1) as [Hst|Hst].
  - rewrite (simulate_active SIN_LUT COS_LUT o w Hst). by rewrite passes_globals.
  - by rewrite (simulate_dormant o w Hst).
Qed.

Lemma reachable_globals (w : World) : reachT w -> globals_ok (globals w).
Proof.
  induction 1 as [vm o | vm o w Hr IH]; [by repeat split|].
  unfold run. destruct (_ || _); [exact IH|].
  destruct (button vm =? BUTTON_R); [by repeat split|].
  rewrite simulate_globals. destruct (_ && _); destruct (_ && _); exact IH.
Qed.

(** X9.  In every reachable state each array has the length the loops
    assume: the seven snow arrays [MAX_SNOW], the five pile arrays
    [MAX_PILE], the ground one entry per column, [GROUND_CHUNKS] being
    [SCREEN_W // 4 + 1]; the centre is the middle of the screen and the
    angle index is a valid index of both tables when they have
    [ROT_STEPS] entries. *)
Theorem reachable_in_range (w : World) :
  reachT w ->
  snow_wf (snow w) /\ pile_wf (pile w) /\
  length (ground (state w)) = Z.to_nat (GROUND_CHUNKS (globals w)) /\
  GROUND_CHUNKS (globals w) = SCREEN_W (globals w) / 4 + 1 /\
  CX (globals w) = SCREEN_W (globals w) / 2 /\
  CY (globals w) = SCREEN_H (globals w) / 2 /\
  0 <= a_idx (state w) < ROT_STEPS /\
  (length SIN_LUT = Z.to_nat ROT_STEPS ->
   is_Some (SIN_LUT !! Z.to_nat (a_idx (state w)))) /\
  (length COS_LUT = Z.to_nat ROT_STEPS ->
   is_Some (COS_LUT !! Z.to_nat (a_idx (state w)))).
Proof.
  intros Hr. destruct (reachable_inv _ _ _ _ _ Hr) as [H1 H2 H3 H4 H5].
  destruct (reachable_globals w Hr) as (G1 & G2 & G3).
  repeat (split; [done|]). split; intros Hl; apply lookup_lt_is_Some; lia.
Qed.

(** ** Pile particles rest on the logo *)



Lemma in_box_true (lx ly : Q) :
  in_box lx ly = true ->
  (L_LEFT <= lx)%Q /\ (lx <= L_RIGHT)%Q /\ (L_TOP <= ly)%Q /\ (ly <= L_BOT)%Q.
Proof.
  unfold in_box. rewrite !andb_true_iff, !Qle_bool_iff. tauto.
Qed.

Lemma off_edge_false (v lo hi : Q) :
  off_edge v lo hi = false -> (lo <= v)%Q /\ (v <= hi)%Q.
Proof.
  unfold off_edge. rewrite orb_false_iff, !Qltb_false. tauto.
Qed.

Lemma snap_on_edge (lx ly : Q) (sv : Q) :
  in_box lx ly = true ->
  on_edge (true, fst (fst (snap lx ly)), snd (fst (snap lx ly)), sv,
           snd (snap lx ly)).
Proof.
  intros (H1 & H2 & H3 & H4)%in_box_true. intros _.
  destruct (snap_first_min lx ly) as (Hr & _ & _ & Hpos).
  cbv zeta in Hr, Hpos. rewrite Hpos.
  set (e := snd (snap lx ly)) in *. clearbody e.
  assert (e = 0 \/ e = 1 \/ e = 2 \/ e = 3) as [->|[->|[->| ->]]] by lia;
    cbn [Z.eqb Pos.eqb fst snd]; tauto.
Qed.

Lemma pile_alloc_on_edge (lx ly : Q) (w : World) (pl' : Pile) (p : nat) :
  pile_wf (pile w) -> in_box lx ly = true ->
  (p < MAX_PILE)%nat ->
  on_edge (particle_of w p) ->
  pl' = pile_alloc lx ly (pile w) ->
  on_edge (pl_act pl' !!! p, pl_rx pl' !!! p, pl_ry pl' !!! p,
           pl_sv pl' !!! p, pl_edge pl' !!! p).
Proof.
  intros Hwf Hbox Hp Hold ->. unfold pile_alloc.
  destruct (first_free _ _) as [f|] eqn:Hf; [|exact Hold].
  pose proof (snap_on_edge lx ly 0 Hbox) as Hs.
  destruct Hwf as (Ha & Hx & Hy & Hv & He).
  destruct (snap lx ly) as [[rx ry] e]. cbn [fst snd] in Hs. proj.
  destruct (decide (f = p)) as [->|Hne].
  - rewrite !list_lookup_total_insert_eq by lia. exact Hs.
  - frame_ne. exact Hold.
Qed.

Lemma snow_step_on_logo (s c : Q) (w : World) (i : nat) :
  inv w -> pile_on_logo w -> pile_on_logo (snow_step s c w i).
Proof.
  intros Hw Hold p Hp.
  destruct (sn_act (snow w) !!! i) eqn:Hi;
    [|rewrite snow_step_dormant by done; by apply Hold].
  rewrite snow_step_active by done. cbv zeta. unfold particle_of. proj.
  destruct (snd (ground_test w i)); [by apply Hold|].
  unfold logo_test, body_test. destruct (to_local _ _ _ _) as [lx ly].
  destruct (in_box lx ly) eqn:Hbox; proj; [|by apply Hold].
  apply (pile_alloc_on_edge lx ly w); try done; [apply Hw | by apply Hold].
Qed.

Lemma slide_on_edge (gx gy rx ry sv : Q) (e : Z) :
  on_edge (true, rx, ry, sv, e) ->
  let r := slide e gx gy sv rx ry in
  on_edge (negb (fst (fst (fst r))), snd (fst r), snd r, snd (fst (fst r)), e).
Proof.
  intros Hold. specialize (Hold eq_refl). cbv zeta. unfold slide.
  destruct Hold as [(-> & Hy & H1 & H2)|[(-> & Hy & H1 & H2)|
                    [(-> & Hx & H1 & H2)|(-> & Hx & H1 & H2)]]];
    cbn [Z.eqb Pos.eqb].
  - destruct (Qltb gy 0); cbn [fst snd negb]; [discriminate|].
    destruct (off_edge _ _ _) eqn:E; cbn [negb]; [discriminate|].
    apply off_edge_false in E. intros _. left. tauto.
  - destruct (Qltb 0 gy); cbn [fst snd negb]; [discriminate|].
    destruct (off_edge _ _ _) eqn:E; cbn [negb]; [discriminate|].
    apply off_edge_false in E. intros _. right. left. tauto.
  - destruct (Qltb 0 gx); cbn [fst snd negb]; [discriminate|].
    destruct (off_edge _ _ _) eqn:E; cbn [negb]; [discriminate|].
    apply off_edge_false in E. intros _. right. right. left. tauto.
  - destruct (Qltb gx 0); cbn [fst snd negb]; [discriminate|].
    destruct (off_edge _ _ _) eqn:E; cbn [negb]; [discriminate|].
    apply off_edge_false in E. intros _. right. right. right. tauto.
Qed.

Lemma pile_step_on_logo (s c gx gy : Q) (w : World) (q : nat) :
  inv w -> (q < MAX_PILE)%nat ->
  pile_on_logo w -> pile_on_logo (pile_step s c gx gy w q).
Proof.
  intros Hw Hq Hold p Hp.
  destruct (decide (q = p)) as [->|Hne];
    [|rewrite pile_step_other_particle by done; by apply Hold].
  destruct (pl_act (pile w) !!! p) eqn:Hact.
  - rewrite (pile_step_self s c gx gy w p (inv_pile _ Hw) Hp Hact). cbv zeta.
    apply slide_on_edge. specialize (Hold p Hp). unfold particle_of in Hold.
    rewrite Hact in Hold. exact Hold.
  - unfold pile_step. rewrite Hact. by apply Hold.
Qed.

Lemma passes_on_logo (s c : Q) (w : World) :
  inv w -> pile_on_logo w -> pile_on_logo (passes s c w).
Proof.
  intros Hw Hold. unfold passes, pile_pass, snow_pass. cbv zeta.
  set (P := fun w' => inv w' /\ pile_on_logo w').
  assert (P (fold_left (snow_step s c) (seq 0 MAX_SNOW) w)) as H1.
  { apply (fold_left_inv P); [|by split].
    intros w' i [Hw' Ho]. split; [by apply snow_step_inv|].
    by apply snow_step_on_logo. }
  apply (fold_left_inv_in P (fun j => (j < MAX_PILE)%nat));
    [|apply Forall_seq_lt|exact H1].
  intros w' p Hp [Hw' Ho]. split; [by apply pile_step_inv|].
  by apply pile_step_on_logo.
Qed.

Lemma start_on_logo (vm : ViewManager) (o : Oracle) (w : World) :
  pile_wf (pile w) -> pile_on_logo (start vm o w).
Proof.
  intros (Ha & _) p Hp. unfold particle_of, start. proj.
  rewrite clear_flags_full by done.
  rewrite (list_lookup_total_correct _ _ false);
    [discriminate | by apply lookup_replicate_2].
Qed.

Lemma simulate_on_logo (o : Oracle) (w : World) :
  inv w -> pile_on_logo w -> pile_on_logo (simT o w).
Proof.
  intros Hw Hold. destruct (Z.eq_dec (stage (state w)) 1) as [Hst|Hst].
  - rewrite (simulate_active SIN_LUT COS_LUT o w Hst).
    apply passes_on_logo; [by apply pre_pass_inv | exact Hold].
  - by rewrite (simulate_dormant o w Hst).
Qed.

(** X10.  In every reachable state each active pile particle carries an
    edge id from 0 to 3 and sits on that edge of the logo: on the top or
    bottom edge its ordinate is the edge's and its abscissa is within
    [[L_LEFT, L_RIGHT]]; on the left or right edge its abscissa is the
    edge's and its ordinate is within [[L_TOP, L_BOT]]. *)
Theorem pile_rests_on_logo (w : World) (p : nat) :
  reachT w -> (p < MAX_PILE)%nat ->
  pl_act (pile w) !!! p = true ->
  let e := pl_edge (pile w) !!! p in
  let rx := pl_rx (pile w) !!! p in
  let ry := pl_ry (pile w) !!! p in
  (e = 0 /\ ry = L_TOP /\ (L_LEFT <= rx)%Q /\ (rx <= L_RIGHT)%Q) \/
  (e = 1 /\ ry = L_BOT /\ (L_LEFT <= rx)%Q /\ (rx <= L_RIGHT)%Q) \/
  (e = 2 /\ rx = L_LEFT /\ (L_TOP <= ry)%Q /\ (ry <= L_BOT)%Q) \/
  (e = 3 /\ rx = L_RIGHT /\ (L_TOP <= ry)%Q /\ (ry <= L_BOT)%Q).
Proof.
  intros Hr Hp Hact. cbv zeta.
  assert (pile_on_logo w) as Hall.
  { clear p Hp Hact. induction Hr as [vm o | vm o w Hr IH].
    - apply start_on_logo, import_world_wf.
    - pose proof (reachable_inv _ _ _ _ _ Hr) as Hw.
      unfold run. destruct (_ || _); [exact IH|].
      set (w1 := if _ && _ then _ else w).
      assert (inv w1 /\ pile_on_logo w1) as [Hw1 Ho1].
      { subst w1. destruct (_ && _); [|done].
        split; [by apply set_rot_inv | exact IH]. }
      clearbody w1. destruct (button vm =? BUTTON_R).
      + apply start_on_logo, Hw1.
      + apply simulate_on_logo; destruct (_ && _); try done.
        by apply set_stage_inv. }
  specialize (Hall p Hp). unfold particle_of, on_edge in Hall. by apply Hall.
Qed.

End Extras.

(** ** The drawing pass *)

Lemma count_calls_app (k : CallKind) (l1 l2 : list DrawCall) :
  count_calls k (l1 ++ l2) = (count_calls k l1 + count_calls k l2)%nat.
Proof. unfold count_calls. by rewrite List.filter_app, length_app. Qed.

Lemma count_calls_same (k : CallKind) (l : list DrawCall) :
  Forall (fun d => kind_of d = k) l -> count_calls k l = length l.
Proof.
  unfold count_calls. induction 1 as [|d l Hd _ IH]; [done|].
  cbn [List.filter]. rewrite bool_decide_eq_true_2 by done.
  cbn [length]. by rewrite IH.
Qed.

Lemma count_calls_other (k k' : CallKind) (l : list DrawCall) :
  Forall (fun d => kind_of d = k) l -> k <> k' -> count_calls k' l = 0%nat.
Proof.
  unfold count_calls. intros Hl Hk. induction Hl as [|d l Hd _ IH]; [done|].
  cbn [List.filter]. rewrite bool_decide_eq_false_2 by congruence. exact IH.
Qed.

Lemma flat_map_seq_length {A : Type} (f : nat -> list A) (c : nat -> bool)
    (a n : nat) :
  (forall i, length (f i) = if c i then 1%nat else 0%nat) ->
  length (flat_map f (seq a n)) = length (List.filter c (seq a n)).
Proof.
  intros Hf. revert a. induction n as [|n IH]; intros a; [done|].
  cbn [seq flat_map List.filter]. rewrite length_app, Hf, IH.
  by destruct (c a).
Qed.

Lemma flat_map_Forall {A B : Type} (P : B -> Prop) (f : A -> list B)
    (l : list A) :
  (forall a, Forall P (f a)) -> Forall P (flat_map f l).
Proof.
  intros Hf. induction l as [|a l IH]; [constructor|].
  cbn [flat_map]. apply Forall_app. by split.
Qed.

Lemma active_count_seq (act : list bool) :
  length (List.filter (fun i => act !!! i) (seq 0 (length act))) =
  active_count act.
Proof.
  induction act as [|b act IH]; [done|].
  rewrite active_count_cons, <- IH.
  change (seq 0 (length (b :: act))) with (0%nat :: seq 1 (length act)).
  rewrite <- seq_shift. cbn [List.filter].
  change ((b :: act) !!! 0%nat) with b.
  rewrite List.filter_map_swap.
  destruct b; cbn [length]; rewrite length_map; reflexivity.
Qed.

Lemma render_ground_kind (gl : Globals) (g : list Z) :
  Forall (fun d => kind_of d = k_rect) (render_ground gl g).
Proof.
  apply flat_map_Forall. intros i. cbv zeta.
  destruct (_ <? _); repeat constructor.
Qed.

Lemma render_ground_length (gl : Globals) (g : list Z) :
  length (render_ground gl g) = snowy_columns gl g.
Proof.
  apply flat_map_seq_length. intros i. cbv zeta. by destruct (_ <? _).
Qed.

Lemma render_snow_kind (sn : Snow) :
  Forall (fun d => kind_of d = k_rect) (render_snow sn).
Proof.
  apply flat_map_Forall. intros i. destruct (_ !!! _); repeat constructor.
Qed.

Lemma render_snow_length (sn : Snow) :
  snow_wf sn -> length (render_snow sn) = active_count (sn_act sn).
Proof.
  intros (Ha & _). rewrite <- active_count_seq, Ha.
  apply flat_map_seq_length. intros i. by destruct (_ !!! _).
Qed.

Lemma render_pile_kind (s c : Q) (cx cy : Z) (pl : Pile) :
  Forall (fun d => kind_of d = k_pixel TFT_WHITE) (render_pile s c cx cy pl).
Proof.
  apply flat_map_Forall. intros i.
  destruct (_ !!! _); [destruct (logo_pixel _ _ _ _ _ _)|];
    repeat constructor.
Qed.

Lemma render_pile_length (s c : Q) (cx cy : Z) (pl : Pile) :
  pile_wf pl -> length (render_pile s c cx cy pl) = active_count (pl_act pl).
Proof.
  intros (Ha & _). rewrite <- active_count_seq, Ha.
  apply flat_map_seq_length. intros i.
  destruct (_ !!! _); [by destruct (logo_pixel _ _ _ _ _ _) | done].
Qed.

Lemma render_pts_flat (s c : Q) (cx cy : Z) (col : Color) (ps : list (Z * Z)) :
  exists calls,
    render_pts s c cx cy col (flat ps) = Some calls /\
    length calls = length ps /\
    Forall (fun d => kind_of d = k_pixel col) calls.
Proof.
  induction ps as [|[px py] ps (calls & Hrun & Hlen & Hk)].
  - exists []. by repeat split.
  - rewrite flat_cons. cbn [fst snd app render_pts]. rewrite Hrun.
    destruct (logo_pixel _ _ _ _ _ _) as [x y].
    eexists. split; [reflexivity|]. split; [cbn [length]; by rewrite Hlen|].
    by constructor.
Qed.

Lemma render_ui_kind (st : StateDict) :
  Forall (fun d => kind_of d = k_text) (render_ui st).
Proof.
  unfold render_ui. destruct (_ =? 0); [|destruct (_ =? 1)];
    repeat constructor.
Qed.

Section FrameProperties.

Variables BUTTON_BACK BUTTON_ESCAPE : Z.
Variables SIN_LUT COS_LUT : list Q.

Local Abbreviation runT := (run BUTTON_BACK BUTTON_ESCAPE SIN_LUT COS_LUT).
Local Abbreviation simT := (simulate SIN_LUT COS_LUT).
Local Abbreviation reachT :=
  (reachable BUTTON_BACK BUTTON_ESCAPE SIN_LUT COS_LUT).
Local Abbreviation frameT :=
  (run_frame BUTTON_BACK BUTTON_ESCAPE SIN_LUT COS_LUT).

Ltac tally H :=
  first [ rewrite (count_calls_same _ _ H)
        | rewrite (count_calls_other _ _ _ H) by discriminate ].

Lemma render_shape (box txt : list (Z * Z)) (s c : Q) (w : World) :
  inv w -> stage (state w) = 0 \/ stage (state w) = 1 ->
  exists body,
    render (flat box) (flat txt) s c w =
      Some (fill_screen TFT_BLACK :: body ++ [swap]) /\
    count_calls k_fill body = 0%nat /\
    count_calls k_swap body = 0%nat /\
    count_calls k_rect body =
      (snowy_columns (globals w) (ground (state w)) +
       active_count (sn_act (snow w)))%nat /\
    count_calls (k_pixel TFT_BLUE) body = length box /\
    count_calls (k_pixel TFT_CYAN) body = length txt /\
    count_calls (k_pixel TFT_WHITE) body = active_count (pl_act (pile w)) /\
    count_calls k_text body =
      (if stage (state w) =? 0 then 2%nat else 3%nat).
Proof.
  intros Hw Hst. unfold render. cbv zeta.
  destruct (render_pts_flat s c (CX (globals w)) (CY (globals w)) TFT_BLUE box)
    as (bc & -> & Lb & Kb).
  destruct (render_pts_flat s c (CX (globals w)) (CY (globals w)) TFT_CYAN txt)
    as (tc & -> & Lt & Kt).
  pose proof (render_ground_kind (globals w) (ground (state w))) as Kg.
  pose proof (render_ground_length (globals w) (ground (state w))) as Lg.
  pose proof (render_snow_kind (snow w)) as Ks.
  pose proof (render_snow_length (snow w) (inv_snow _ Hw)) as Ls.
  pose proof (render_pile_kind s c (CX (globals w)) (CY (globals w)) (pile w))
    as Kp.
  pose proof (render_pile_length s c (CX (globals w)) (CY (globals w))
                (pile w) (inv_pile _ Hw)) as Lp.
  pose proof (render_ui_kind (state w)) as Ku.
  assert (length (render_ui (state w)) =
          if stage (state w) =? 0 then 2%nat else 3%nat) as Lu.
  { unfold render_ui. destruct Hst as [-> | ->]; reflexivity. }
  set (g := render_ground _ _) in *. set (sn := render_snow _) in *.
  set (p := render_pile _ _ _ _ _) in *. set (u := render_ui _) in *.
  clearbody g sn p u.
  exists (g ++ sn ++ bc ++ tc ++ p ++ u).
  split; [cbn [app]; by rewrite <- !app_assoc|].
  repeat split; rewrite !count_calls_app;
    tally Kg; tally Ks; tally Kb; tally Kt; tally Kp; tally Ku; lia.
Qed.

(** X12.  What a call of [run] draws, the caches holding whole points.
    Nothing on exit.  On a reset, the black frame of [start].  Otherwise
    one frame, for the state the call leaves and the angle the call
    began with: first the black fill, last the swap, none of the two in
    between, and in between one rectangle for each column holding snow
    and each active flake, one blue pixel for each point of [box_pts],
    one cyan pixel for each point of [text_pts], one white pixel for
    each active pile particle, and two help texts in stage 0, three in
    stage 1.  The cache read never runs past the list. *)
Theorem run_frame_shape (box txt : list (Z * Z)) (vm : ViewManager)
    (o : Oracle) (w : World) :
  reachT w ->
  let b := button vm in
  let w' := runT vm o w in
  let a := a_idx (state w) in
  let frame := frameT (flat box) (flat txt) vm o w in
  (b = BUTTON_BACK \/ b = BUTTON_ESCAPE -> frame = Some []) /\
  (b <> BUTTON_BACK -> b <> BUTTON_ESCAPE -> b = BUTTON_R ->
   frame = Some [fill_screen TFT_BLACK; swap]) /\
  (b <> BUTTON_BACK -> b <> BUTTON_ESCAPE -> b <> BUTTON_R ->
   frame = render (flat box) (flat txt)
             (SIN_LUT !!! Z.to_nat a) (COS_LUT !!! Z.to_nat a) w' /\
   exists body,
     frame = Some (fill_screen TFT_BLACK :: body ++ [swap]) /\
     count_calls k_fill body = 0%nat /\
     count_calls k_swap body = 0%nat /\
     count_calls k_rect body =
       (snowy_columns (globals w') (ground (state w')) +
        active_count (sn_act (snow w')))%nat /\
     count_calls (k_pixel TFT_BLUE) body = length box /\
     count_calls (k_pixel TFT_CYAN) body = length txt /\
     count_calls (k_pixel TFT_WHITE) body = active_count (pl_act (pile w')) /\
     count_calls k_text body =
       (if stage (state w') =? 0 then 2%nat else 3%nat)).
Proof.
  intros Hr. cbv zeta.
  pose proof (reachable_inv _ _ _ _ _ (reach_run _ _ _ _ vm o w Hr)) as Hw'.
  pose proof (reachable_stage _ _ _ _ _ (reach_run _ _ _ _ vm o w Hr)) as Hst'.
  split; [|split].
  - intros Hb. unfold run_frame. cbv zeta.
    assert ((button vm =? BUTTON_BACK) || (button vm =? BUTTON_ESCAPE) = true)
      as -> by (apply orb_true_iff; rewrite !Z.eqb_eq; exact Hb).
    reflexivity.
  - intros H1 H2 H3. unfold run_frame. cbv zeta.
    apply Z.eqb_neq in H1. apply Z.eqb_neq in H2. apply Z.eqb_eq in H3.
    rewrite H1, H2, H3. reflexivity.
  - intros H1 H2 H3.
    apply Z.eqb_neq in H1. apply Z.eqb_neq in H2. apply Z.eqb_neq in H3.
    assert (frameT (flat box) (flat txt) vm o w =
            render (flat box) (flat txt)
              (SIN_LUT !!! Z.to_nat (a_idx (state w)))
              (COS_LUT !!! Z.to_nat (a_idx (state w))) (runT vm o w)) as E.
    { unfold run_frame, run. cbv zeta. rewrite H1, H2, H3. cbn [orb].
      set (w1 := if _ && _ then _ else w).
      assert (a_idx (state w1) = a_idx (state w)) as E1
        by (subst w1; by destruct (_ && _)).
      clearbody w1.
      set (w2 := if _ && _ then _ else w1).
      assert (a_idx (state w2) = a_idx (state w1)) as E2
        by (subst w2; by destruct (_ && _)).
      clearbody w2. by rewrite E2, E1. }
    split; [exact E|]. rewrite E.
    set (w' := runT vm o w) in *. clearbody w'.
    by apply render_shape.
Qed.

(** X13.  In a reachable state every ground rectangle of the drawing
    pass belongs to a column [i] of the ground array: it starts at
    [x = 4 i], which is at most [SCREEN_W], is 4 wide, and spans from
    the column height down to the floor line [SCREEN_H] exactly, with a
    height of at least 1.  A column gets its rectangle exactly when its
    height differs from [SCREEN_H]. *)
Theorem ground_rects_reach_floor (w : World) :
  reachT w ->
  let gl := globals w in
  let g := ground (state w) in
  let column i :=
    rect (4 * Z.of_nat i) (g !!! i) 4 (SCREEN_H gl - g !!! i) TFT_WHITE in
  Forall (fun d => exists i,
            (i < length g)%nat /\ d = column i /\
            4 * Z.of_nat i <= SCREEN_W gl /\
            1 <= SCREEN_H gl - g !!! i) (render_ground gl g) /\
  (forall i, (i < length g)%nat ->
     In (column i) (render_ground gl g) <-> g !!! i <> SCREEN_H gl).
Proof.
  intros Hr. cbv zeta.
  pose proof (reachable_inv _ _ _ _ _ Hr) as [_ _ Hlen Hfloor _].
  pose proof (reachable_globals _ _ _ _ _ Hr) as (_ & _ & Hch).
  set (gl := globals w) in *. set (g := ground (state w)) in *.
  clearbody gl g.
  assert (forall i d, In d (if g !!! i <? SCREEN_H gl
                            then [rect (Z.shiftl (Z.of_nat i) 2) (g !!! i) 4
                                    (SCREEN_H gl - g !!! i) TFT_WHITE]
                            else []) <->
            g !!! i < SCREEN_H gl /\
            d = rect (4 * Z.of_nat i) (g !!! i) 4 (SCREEN_H gl - g !!! i)
                  TFT_WHITE) as Hone.
  { intros i d. rewrite Z.shiftl_mul_pow2 by lia.
    replace (Z.of_nat i * 2 ^ 2) with (4 * Z.of_nat i) by lia.
    destruct (Z.ltb_spec (g !!! i) (SCREEN_H gl)); cbn [In]; [|lia].
    split; [intros [<-|[]]; done | intros [_ ->]; by left]. }
  split.
  - apply Forall_forall. intros d Hd%list_elem_of_In.
    unfold render_ground in Hd. apply in_flat_map in Hd as (i & Hi & Hd).
    cbv zeta in Hd. apply Hone in Hd as [Hlt ->].
    apply in_seq in Hi. exists i. split; [lia|]. split; [done|].
    split; [|lia].
    pose proof (Z.mul_div_le (SCREEN_W gl) 4 ltac:(lia)). lia.
  - intros i Hi. unfold render_ground. rewrite in_flat_map. split.
    + intros (j & Hj & Hd). cbv zeta in Hd. apply Hone in Hd as [Hlt Hd].
      injection Hd as Hd _. assert (j = i) as -> by lia. lia.
    + intros Hne. exists i. split; [apply in_seq; lia|]. cbv zeta.
      apply Hone. split; [|done].
      pose proof (list_lookup_lookup_total_lt g i Hi) as Hl.
      pose proof (proj1 (Forall_lookup _ g) Hfloor _ _ Hl) as Hle.
      cbv beta in Hle. lia.
Qed.

End FrameProperties.

(** ** Snow on the ground through a tick *)

Lemma try_land_drop (n : Z) (g : list Z) (col : Z) (bottom : Q) (j : nat) :
  g !!! j - 4 <= fst (try_land n g col bottom) !!! j <= g !!! j.
Proof.
  rewrite try_land_fst. destruct (snd _); [|lia].
  rewrite list_lookup_total_insert. case_decide as Hj; [|lia].
  destruct Hj as [<- _]. lia.
Qed.

Lemma melt_rise (n h : Z) (g : list Z) (j : nat) :
  g !!! j <= melt n h g !!! j <= g !!! j + 1.
Proof.
  rewrite !list_lookup_total_alt, melt_lookup.
  case_decide; [|lia]. destruct (g !! j) as [v|]; simpl; [|lia].
  unfold melted. destruct (v <? h); lia.
Qed.

Lemma snow_step_ground (s c : Q) (w : World) (i j : nat) :
  tick (state (snow_step s c w i)) = tick (state w) /\
  ground (state w) !!! j - 4 <= ground (state (snow_step s c w i)) !!! j
    <= ground (state w) !!! j.
Proof.
  destruct (sn_act (snow w) !!! i) eqn:Hi;
    [|rewrite snow_step_dormant by done; lia].
  rewrite snow_step_active by done. cbv zeta. proj.
  split; [done|]. unfold ground_test. apply try_land_drop.
Qed.

Lemma snow_pass_ground (s c : Q) (w : World) (j : nat) :
  tick (state (snow_pass s c w)) = tick (state w) /\
  ground (state w) !!! j - 4 * Z.of_nat MAX_SNOW
    <= ground (state (snow_pass s c w)) !!! j <= ground (state w) !!! j.
Proof.
  unfold snow_pass.
  assert (forall l w0,
            tick (state (fold_left (snow_step s c) l w0)) = tick (state w0) /\
            ground (state w0) !!! j - 4 * Z.of_nat (length l)
              <= ground (state (fold_left (snow_step s c) l w0)) !!! j
              <= ground (state w0) !!! j) as H.
  { induction l as [|i l IH]; intros w0; cbn [fold_left length]; [lia|].
    destruct (IH (snow_step s c w0 i)) as [E1 E2].
    destruct (snow_step_ground s c w0 i j) as [E3 E4].
    rewrite E1, E3. split; [done|]. lia. }
  specialize (H (seq 0 MAX_SNOW) w). by rewrite length_seq in H.
Qed.

Lemma pile_pass_state (s c : Q) (w : World) :
  state (pile_pass s c w) = state w.
Proof.
  unfold pile_pass. cbv zeta.
  apply (fold_left_inv (fun w' => state w' = state w)); [|done].
  intros w' p Hw'. by rewrite (proj2 (pile_step_ctl _ _ _ _ _ _)).
Qed.

Section GroundTick.

Variables SIN_LUT COS_LUT : list Q.
Local Abbreviation simT := (simulate SIN_LUT COS_LUT).

(** X14.  One active tick on the ground.  The tick counter goes up by
    one.  A column height (the ordinate of the snow top) rises by at
    most 1, and on a tick whose new number is not a multiple of
    [MELT_RATE] it does not rise at all: between melts snow only
    accumulates.  It drops by at most [4 * MAX_SNOW], the ten flakes of
    the pool landing on the same column. *)
Theorem ground_through_tick (o : Oracle) (w : World) (j : nat) :
  stage (state w) = 1 ->
  let w' := simT o w in
  let h := ground (state w) !!! j in
  let h' := ground (state w') !!! j in
  tick (state w') = tick (state w) + 1 /\
  h - 4 * Z.of_nat MAX_SNOW <= h' <= h + 1 /\
  (tick (state w') mod MELT_RATE <> 0 -> h' <= h).
Proof.
  intros Hst. cbv zeta. rewrite (simulate_active SIN_LUT COS_LUT o w Hst).
  unfold passes. rewrite pile_pass_state.
  set (s := SIN_LUT !!! _). set (c := COS_LUT !!! _). clearbody s c.
  destruct (snow_pass_ground s c (pre_pass o (a_idx (state w)) w) j)
    as [E1 E2].
  rewrite E1. revert E2.
  generalize (ground (state (snow_pass s c (pre_pass o (a_idx (state w)) w)))
                !!! j).
  intros h' E2. unfold pre_pass in *. revert E2. proj. intros E2.
  split; [done|].
  pose proof (melt_rise (GROUND_CHUNKS (globals w)) (SCREEN_H (globals w))
                (ground (state w)) j) as Hm.
  destruct (Z.eqb_spec ((tick (state w) + 1) mod MELT_RATE) 0) as [E|E].
  - split; [lia | intros; lia].
  - split; lia.
Qed.

End GroundTick.

(** ** A particle leaving the logo *)

(** X15.  A pile particle that falls off while a flake slot is dormant
    changes pool: it is deactivated and the lowest dormant flake slot
    wakes up at the particle's position rotated into the screen frame
    about the centre, its previous position being the same; the
    velocity is the slide velocity along the rotated edge direction
    (horizontal edges for an edge id below 2, vertical ones otherwise)
    plus 1 downward.  No other flake changes and the number of particles
    in play stays the same. *)
Theorem fall_off_transfers (s c gx gy : Q) (w : World) (p i : nat) :
  snow_wf (snow w) -> pile_wf (pile w) -> (p < MAX_PILE)%nat ->
  pl_act (pile w) !!! p = true ->
  falls gx gy w p = true ->
  first_free MAX_SNOW (sn_act (snow w)) = Some i ->
  let pl := pile w in
  let e := pl_edge pl !!! p in
  let r := slide e gx gy (pl_sv pl !!! p) (pl_rx pl !!! p) (pl_ry pl !!! p) in
  let sv := snd (fst (fst r)) in
  let rx := snd (fst r) in
  let ry := snd r in
  let ax := (rx * c - ry * s + inject_Z (CX (globals w)))%F in
  let ay := (rx * s + ry * c + inject_Z (CY (globals w)))%F in
  let w' := pile_step s c gx gy w p in
  pl_act (pile w') !!! p = false /\
  sn_act (snow w) !!! i = false /\
  (forall q, (q < i)%nat -> sn_act (snow w) !!! q = true) /\
  flake_of w' i =
    (true, ax, ay,
     if e <? 2 then (sv * c)%F else (- sv * s)%F,
     if e <? 2 then (sv * s + 1.0%Q)%F else (sv * c + 1.0%Q)%F) /\
  sn_px (snow w') !!! i = ax /\ sn_py (snow w') !!! i = ay /\
  (forall j, j <> i -> flake_of w' j = flake_of w j) /\
  in_play w' = in_play w.
Proof.
  intros (Ha & Hx & Hy & Hvx & Hvy & Hpx & Hpy) (Hb & _) Hp Hact Hfall Hf.
  cbv zeta. unfold falls in Hfall. unfold pile_step, in_play, flake_of.
  rewrite Hact. cbn [negb].
  destruct (slide _ _ _ _ _ _) as [[[fall sv] rx] ry].
  cbn [fst snd] in *. subst fall. proj.
  destruct (first_free_least _ _ _ Hf) as (Hi & Hfree & Hlow).
  pose proof (active_count_insert (pl_act (pile w)) p false ltac:(lia)) as Hc.
  pose proof (active_count_insert (sn_act (snow w)) i true ltac:(lia)) as Hd.
  rewrite Hact in Hc. rewrite Hfree in Hd.
  unfold fall_off, to_world, snow_alloc. rewrite Hf.
  split; [by apply list_lookup_total_insert_eq; lia|].
  split; [exact Hfree|]. split; [exact Hlow|].
  destruct (_ <? 2); proj;
    rewrite !list_lookup_total_insert_eq by lia;
    (repeat (split; [reflexivity|]));
    (split; [intros j Hj; by frame_ne | lia]).
Qed.

(** ** Concrete runs of the further properties *)

Lemma run_in_play_witness :
  reachable 5 43 SIN_LUT_9 COS_LUT_9 fresh_world /\
  (in_play (run 5 43 SIN_LUT_9 COS_LUT_9 idle_view (column_oracle 0)
              fresh_world) <= S (in_play fresh_world))%nat.
Proof.
  assert (reachable 5 43 SIN_LUT_9 COS_LUT_9 fresh_world) as Hr
    by apply reach_start.
  split; [exact Hr|].
  exact (proj1 (run_in_play 5 43 SIN_LUT_9 COS_LUT_9 idle_view
                  (column_oracle 0) fresh_world Hr)).
Defined.

Lemma stage_machine_witness :
  reachable 5 43 SIN_LUT_9 COS_LUT_9 fresh_world /\
  stage (state fresh_world) = 0 /\
  5000 < ticks_diff (ticks_ms_run (column_oracle 0))
           (start_time (state fresh_world)) /\
  stage (state (run 5 43 SIN_LUT_9 COS_LUT_9 idle_view (column_oracle 0)
                  fresh_world)) = 1.
Proof.
  assert (reachable 5 43 SIN_LUT_9 COS_LUT_9 fresh_world) as Hr
    by apply reach_start.
  destruct (stage_machine 5 43 SIN_LUT_9 COS_LUT_9 idle_view
              (column_oracle 0) fresh_world Hr) as (_ & _ & H & _).
  split; [exact Hr|]. split; [reflexivity|]. split; [reflexivity|].
  apply H; reflexivity.
Defined.

Lemma g_key_toggles_witness :
  button g_view = BUTTON_G /\ stage (state scenario_A) = 1 /\
  rot (state (run 5 43 SIN_LUT_9 COS_LUT_9 g_view (quiet_oracle 0)
                scenario_A)) = negb (rot (state scenario_A)).
Proof.
  split; [reflexivity|]. split; [reflexivity|].
  apply (g_key_toggles 5 43 SIN_LUT_9 COS_LUT_9 g_view (quiet_oracle 0)
           scenario_A); reflexivity.
Defined.

Lemma angle_index_wraps_witness :
  let w := one_flake true 205 107 0 0.92 in
  stage (state w) = 1 /\ 0 <= a_idx (state w) < ROT_STEPS /\
  a_idx (state (sim_ticks SIN_LUT_9 COS_LUT_9 quiet_oracle 126 w)) =
  a_idx (state w).
Proof.
  cbv zeta.
  assert (0 <= a_idx (state (one_flake true 205 107 0 0.92)) < ROT_STEPS)
    as Ha by (split; [discriminate | reflexivity]).
  split; [reflexivity|]. split; [exact Ha|].
  apply (angle_index_wraps SIN_LUT_9 COS_LUT_9 quiet_oracle
           (one_flake true 205 107 0 0.92) 126 eq_refl Ha).
  reflexivity.
Defined.

Lemma reachable_in_range_witness :
  reachable 5 43 SIN_LUT_9 COS_LUT_9 fresh_world /\
  length SIN_LUT_9 = Z.to_nat ROT_STEPS /\
  is_Some (SIN_LUT_9 !! Z.to_nat (a_idx (state fresh_world))) /\
  length (ground (state fresh_world)) = 81%nat.
Proof.
  assert (reachable 5 43 SIN_LUT_9 COS_LUT_9 fresh_world) as Hr
    by apply reach_start.
  destruct (reachable_in_range 5 43 SIN_LUT_9 COS_LUT_9 fresh_world Hr)
    as (_ & _ & Hg & _ & _ & _ & _ & Hs & _).
  split; [exact Hr|]. split; [reflexivity|].
  split; [apply Hs; reflexivity | exact Hg].
Defined.

Lemma pile_rests_on_logo_witness :
  let w := run_seq 5 43 SIN_LUT_9 COS_LUT_9 idle_view
             (map logo_oracle (seq 0 40)) fresh_world in
  reachable 5 43 SIN_LUT_9 COS_LUT_9 w /\
  pl_act (pile w) !!! 0%nat = true /\
  pl_edge (pile w) !!! 0%nat = 0 /\
  pl_ry (pile w) !!! 0%nat = L_TOP.
Proof.
  cbv zeta.
  set (w := run_seq 5 43 SIN_LUT_9 COS_LUT_9 idle_view
              (map logo_oracle (seq 0 40)) fresh_world).
  assert (reachable 5 43 SIN_LUT_9 COS_LUT_9 w) as Hr
    by apply reachable_run_seq, reach_start.
  assert (pl_act (pile w) !!! 0%nat = true) as Hact
    by (vm_cast_no_check (eq_refl true)).
  assert (pl_edge (pile w) !!! 0%nat = 0) as He
    by (vm_cast_no_check (eq_refl 0)).
  clearbody w.
  split; [exact Hr|]. split; [exact Hact|]. split; [exact He|].
  destruct (pile_rests_on_logo 5 43 SIN_LUT_9 COS_LUT_9 w 0 Hr
              ltac:(unfold MAX_PILE; lia) Hact)
    as [(_ & H & _)|[(E & _)|[(E & _)|(E & _)]]];
    [exact H | rewrite He in E; discriminate E ..].
Defined.

Lemma run_frame_shape_witness :
  reachable 5 43 SIN_LUT_9 COS_LUT_9 fresh_world /\
  button idle_view <> 5 /\ button idle_view <> 43 /\
  button idle_view <> BUTTON_R /\
  exists body,
    run_frame 5 43 SIN_LUT_9 COS_LUT_9 (flat [(-45, -12); (45, -12)])
      (flat [(-39, -6)]) idle_view (column_oracle 0) fresh_world =
      Some (fill_screen TFT_BLACK :: body ++ [swap]) /\
    count_calls (k_pixel TFT_BLUE) body = 2%nat /\
    count_calls (k_pixel TFT_CYAN) body = 1%nat.
Proof.
  assert (reachable 5 43 SIN_LUT_9 COS_LUT_9 fresh_world) as Hr
    by apply reach_start.
  destruct (run_frame_shape 5 43 SIN_LUT_9 COS_LUT_9
              [(-45, -12); (45, -12)] [(-39, -6)] idle_view (column_oracle 0)
              fresh_world Hr) as (_ & _ & H).
  destruct H as (_ & body & Hf & _ & _ & _ & Hb & Hc & _);
    [discriminate ..|].
  split; [exact Hr|]. repeat (split; [discriminate|]).
  exists body. split; [exact Hf|]. split; [exact Hb | exact Hc].
Defined.

Lemma ground_rects_reach_floor_witness :
  let w := run_seq 5 43 SIN_LUT_9 COS_LUT_9 idle_view
             (map column_oracle (seq 0 80)) fresh_world in
  reachable 5 43 SIN_LUT_9 COS_LUT_9 w /\
  (25 < length (ground (state w)))%nat /\
  ground (state w) !!! 25%nat <> SCREEN_H (globals w) /\
  In (rect 100 (ground (state w) !!! 25%nat) 4
        (SCREEN_H (globals w) - ground (state w) !!! 25%nat) TFT_WHITE)
     (render_ground (globals w) (ground (state w))).
Proof.
  cbv zeta.
  set (w := run_seq 5 43 SIN_LUT_9 COS_LUT_9 idle_view
              (map column_oracle (seq 0 80)) fresh_world).
  assert (reachable 5 43 SIN_LUT_9 COS_LUT_9 w) as Hr
    by apply reachable_run_seq, reach_start.
  assert ((ground (state w) !!! 25%nat =? SCREEN_H (globals w)) = false)
    as Hne by (vm_cast_no_check (eq_refl false)).
  apply Z.eqb_neq in Hne.
  assert ((25 <? length (ground (state w)))%nat = true) as Hlen
    by (vm_cast_no_check (eq_refl true)).
  apply Nat.ltb_lt in Hlen. clearbody w.
  split; [exact Hr|]. split; [exact Hlen|]. split; [exact Hne|].
  apply (proj2 (ground_rects_reach_floor 5 43 SIN_LUT_9 COS_LUT_9 w Hr)
           25%nat Hlen).
  exact Hne.
Defined.

Lemma ground_through_tick_witness :
  stage (state scenario_A) = 1 /\
  tick (state (simulate SIN_LUT_9 COS_LUT_9 (quiet_oracle 0) scenario_A)) = 1 /\
  ground (state (simulate SIN_LUT_9 COS_LUT_9 (quiet_oracle 0) scenario_A))
    !!! 25%nat <= 240.
Proof.
  destruct (ground_through_tick SIN_LUT_9 COS_LUT_9 (quiet_oracle 0)
              scenario_A 25 eq_refl) as (H1 & _ & H3).
  split; [reflexivity|]. split; [exact H1|].
  apply H3. rewrite H1. discriminate.
Defined.

Lemma fall_off_transfers_witness :
  let w := one_particle false 1 0 12 0 in
  let w' := pile_step 0 1 0 0.16 w 0 in
  snow_wf (snow w) /\ pile_wf (pile w) /\
  falls 0 0.16 w 0 = true /\
  first_free MAX_SNOW (sn_act (snow w)) = Some 0%nat /\
  pl_act (pile w') !!! 0%nat = false /\
  flake_of w' 0 = (true, 160, 132, 0, 1)%Q /\
  in_play w' = in_play w.
Proof.
  cbv zeta.
  destruct (one_particle_inv false 1 0 12 0) as [Hsn Hpl _ _ _].
  destruct (fall_off_transfers 0 1 0 0.16 (one_particle false 1 0 12 0)
              0 0 Hsn Hpl ltac:(unfold MAX_PILE; lia) eq_refl eq_refl eq_refl)
    as (H1 & _ & _ & H2 & _ & _ & _ & H3).
  split; [exact Hsn|]. split; [exact Hpl|].
  split; [reflexivity|]. split; [reflexivity|].
  split; [exact H1|]. split; [exact H2 | exact H3].
Defined.
